(** * Breakthrough rules engine: action codec, validity mask, transitions

    A shallow embedding of [breakthrough/BreakthroughGame.py] and of the
    players of [breakthrough/BreakthroughPlayers.py].

    Conventions of the embedding.
    - Python integers are [Z]; [//] and [%] are [Z.div] and [Z.modulo]
      (both round towards minus infinity for a positive divisor).
    - A board is a 2-d [int8] ndarray, embedded as a list of rows of [Z];
      arithmetic on cells goes through [wrap8].
    - Integer indexing follows numpy/Python: a negative index counts from
      the end, an index outside [-len, len) raises ([None] here).
    - [getNextState] copies its argument and then assigns into the copy;
      arrays therefore live in a store, and the function is written in a
      small state-and-error monad over that store. *)

From Stdlib Require Import Ascii.
From stdpp Require Import gmap list numbers strings.

Local Open Scope Z_scope.

(** ** Arrays *)

Abbreviation board := (list (list Z)).

(** Two's-complement wrap-around of [int8] arithmetic. *)
Definition wrap8 (x : Z) : Z := (x + 128) `mod` 256 - 128.

(** Resolution of an integer index against a sequence of length [len]. *)
Definition np_index (len : nat) (i : Z) : option nat :=
  if decide (0 ≤ i < Z.of_nat len) then Some (Z.to_nat i)
  else if decide (- Z.of_nat len ≤ i < 0) then Some (Z.to_nat (i + Z.of_nat len))
  else None.

(** [l[k:]] and [l[:k]] for an integer [k] of either sign. *)
Definition slice_from {A} (k : Z) (l : list A) : list A :=
  if decide (0 ≤ k) then drop (Z.to_nat k) l
  else drop (length l - Z.to_nat (- k)) l.

Definition slice_to {A} (k : Z) (l : list A) : list A :=
  if decide (0 ≤ k) then take (Z.to_nat k) l
  else take (length l - Z.to_nat (- k)) l.

(** [b[r]] *)
Definition getrow (b : board) (r : Z) : option (list Z) :=
  i ← np_index (length b) r; b !! i.

(** [b[r][c]] *)
Definition getitem (b : board) (r c : Z) : option Z :=
  row ← getrow b r; j ← np_index (length row) c; row !! j.

(** A Python integer assigned into an [int8] array must fit. *)
Definition to_int8 (v : Z) : option Z :=
  if decide (-128 ≤ v ≤ 127) then Some v else None.

(** [b[r][c] = v], as a function from the old contents to the new. *)
Definition setitem (b : board) (r c v : Z) : option board :=
  i ← np_index (length b) r;
  row ← b !! i;
  j ← np_index (length row) c;
  x ← to_int8 v;
  Some (<[i := <[j := x]> row]> b).

(** [b[r] += d] on a whole row. *)
Definition row_iadd (b : board) (r d : Z) : option board :=
  i ← np_index (length b) r;
  row ← b !! i;
  Some (<[i := (λ x, wrap8 (x + d)) <$> row]> b).

(** [np.zeros((r, c), dtype=np.int8)]; a negative dimension raises. *)
Definition np_zeros (r c : Z) : option board :=
  if decide (0 ≤ r ∧ 0 ≤ c)
  then Some (replicate (Z.to_nat r) (replicate (Z.to_nat c) 0))
  else None.

Definition flipud {A} (m : list (list A)) : list (list A) := reverse m.
Definition fliplr {A} (m : list (list A)) : list (list A) := reverse <$> m.
Definition flatten {A} (m : list (list A)) : list A := mjoin m.

(** Elementwise comparisons of an array against a scalar. *)
Definition gt0 (m : board) : list (list bool) :=
  fmap (M := list) (λ x, bool_decide (0 < x)) <$> m.
Definition le0 (m : board) : list (list bool) :=
  fmap (M := list) (λ x, bool_decide (x ≤ 0)) <$> m.
Definition eq0 (m : board) : list (list bool) :=
  fmap (M := list) (λ x, bool_decide (x = 0)) <$> m.

(** [np.logical_and] on two 2-d arrays.  Operands of different shapes are
    reported as a failure; the slices taken by [getValidMoves] from a
    square board always agree in shape, so broadcasting never comes into
    play there. *)
Definition logical_and (x y : list (list bool)) : option (list (list bool)) :=
  if decide (length <$> x = length <$> y)
  then Some (zip_with (zip_with andb) x y)
  else None.

Definition bool_to_int8 (b : bool) : Z := if b then 1 else 0.

(** ** The game object *)

(** The two assertions of [__init__]. *)
Definition size_ok (n : Z) : Prop := 4 ≤ n ∧ n `mod` 2 = 0.

Global Instance size_ok_dec n : Decision (size_ok n).
Proof. unfold size_ok. apply _. Defined.

Definition getInitBoard (n : Z) : option board :=
  b ← np_zeros n n;
  b ← row_iadd b 0 (-1);
  b ← row_iadd b 1 (-1);
  b ← row_iadd b (n - 1) 1;
  row_iadd b (n - 2) 1.

Definition getBoardSize (n : Z) : Z * Z := (n, n).

Definition getActionSize (n : Z) : Z := (3 * n - 2) * (n - 1).

(** The decoded move: source and destination coordinates. *)
Record move := Move { src_row : Z; src_col : Z; dest_row : Z; dest_col : Z }.

(** The index arithmetic of [getNextState], from [left_act] down to the
    two mirror steps. *)
Definition decode (n player action : Z) : move :=
  let left_act := Z.min action ((n - 1) * (3 * n - 2) - action - 1) in
  let '(sr, sc, dr, dc) :=
    if decide (left_act < (n - 1) * (n - 1)) then
      let dest_row := left_act `div` (n - 1) in
      let src_col := left_act `mod` (n - 1) in
      (dest_row + 1, src_col, dest_row, src_col + 1)
    else
      let la_zeroed := left_act - (n - 1) * (n - 1) in
      let dest_row := la_zeroed `div` (n `div` 2) in
      let dest_col := la_zeroed `mod` (n `div` 2) in
      (dest_row + 1, dest_col, dest_row, dest_col) in
  let '(sc, dc) :=
    if decide (left_act < action) then (n - sc - 1, n - dc - 1) else (sc, dc) in
  let '(sr, dr) :=
    if decide (player < 0) then (n - sr - 1, n - dr - 1) else (sr, dr) in
  Move sr sc dr dc.

(** ** The store of arrays and its monad *)

Abbreviation loc := nat (only parsing).
Abbreviation store := (gmap nat board) (only parsing).

Definition M (A : Type) : Type := store → option (A * store).

Definition ret {A} (x : A) : M A := λ s, Some (x, s).
Definition bind {A B} (m : M A) (k : A → M B) : M B :=
  λ s, match m s with Some (x, s') => k x s' | None => None end.

Declare Scope heap_scope.
Delimit Scope heap_scope with heap.
Notation "x ←ₕ m ;; k" := (bind m (λ x, k))
  (at level 100, m at next level, right associativity) : heap_scope.
Notation "m ;;ₕ k" := (bind m (λ _, k))
  (at level 100, right associativity) : heap_scope.

(** [np.copy(a)]: a new array with the contents of [a]. *)
Definition np_copy (a : loc) : M loc :=
  λ s, b ← s !! a;
       let a' := fresh (dom s) in
       Some (a', <[a' := b]> s).

(** [a[r][c] = v] on the array stored at [a]. *)
Definition store_setitem (a : loc) (r c v : Z) : M unit :=
  λ s, b ← s !! a; b' ← setitem b r c v; Some ((), <[a := b']> s).

Definition getNextState (n : Z) (board : loc) (player action : Z) : M (loc * Z) :=
  (board ←ₕ np_copy board;;
   let m := decode n player action in
   store_setitem board (src_row m) (src_col m) 0;;ₕ
   store_setitem board (dest_row m) (dest_col m) player;;ₕ
   ret (board, - player))%heap.

(** ** Read-only operations *)

Definition getCanonicalForm (n : Z) (b : board) (player : Z) : board :=
  if decide (0 < player) then b
  else flipud (fmap (M := list) (λ x, wrap8 (x * player)) <$> b).

Definition getValidMoves (n : Z) (b : board) (player : Z) : option (list Z) :=
  let board := getCanonicalForm n b player in
  moves_right ←
    logical_and (gt0 (slice_to (-1) <$> slice_from 1 board))
                (le0 (slice_from 1 <$> slice_to (-1) board));
  moves_forward1 ←
    logical_and (gt0 (slice_to (n `div` 2) <$> slice_from 1 board))
                (eq0 (slice_to (n `div` 2) <$> slice_to (-1) board));
  moves_forward2 ←
    logical_and (gt0 (flipud (slice_from (n `div` 2) <$> slice_from 1 board)))
                (eq0 (flipud (slice_from (n `div` 2) <$> slice_to (-1) board)));
  moves_left ←
    logical_and (gt0 (flipud (slice_from 1 <$> slice_from 1 board)))
                (le0 (flipud (slice_to (-1) <$> slice_to (-1) board)));
  Some (bool_to_int8 <$>
          flatten moves_right ++ flatten moves_forward1 ++
          flatten moves_forward2 ++ flatten moves_left).

(** [valids[a]] *)
Definition mask_at (mask : list Z) (a : Z) : option Z :=
  i ← np_index (length mask) a; mask !! i.

Definition getGameEnded (n : Z) (b : board) (player : Z) : option Z :=
  row0 ← getrow b 0;
  rowl ← getrow b (n - 1);
  let w_win := bool_decide (1 ∈ row0) in
  let b_win := bool_decide (-1 ∈ rowl) in
  Some (if w_win then player else if b_win then - player else 0).

Definition getSymmetries {A} (b : board) (pi : list A)
  : list (board * list A) :=
  [(b, pi); (fliplr b, reverse pi)].

(** [('.', 'W', 'B')[p]] *)
Definition cell_str (p : Z) : option string :=
  i ← np_index 3 p; ["."; "W"; "B"]%string !! i.

Definition stringRepresentation (b : board) : option string :=
  cs ← mapM cell_str (flatten b);
  Some (String.concat EmptyString cs).

(** ** Players: [breakthrough/BreakthroughPlayers.py] *)

(** [ord(c)], for a one-byte character. *)
Definition ord (c : ascii) : Z := Z.of_nat (nat_of_ascii c).

(** [s[i]] on a string. *)
Definition str_index (s : string) (i : Z) : option ascii :=
  k ← np_index (String.length s) i; String.list_ascii_of_string s !! k.

Definition parse_movestr (movestr : string) : option (Z * Z * Z * Z) :=
  c1 ← str_index movestr 1;
  c0 ← str_index movestr 0;
  c3 ← str_index movestr 3;
  c2 ← str_index movestr 2;
  Some (7 - (ord c1 - ord "1"), ord c0 - ord "a",
        7 - (ord c3 - ord "1"), ord c2 - ord "a").

(** What a call of [play] has done after consuming a finite run of the
    random generator: raised, drawn without returning yet, or returned. *)
Inductive outcome := Raised | Pending | Returned (a : Z).

(** The loop [while valids[a] != 1: a = randint(...)], with the numbers
    the generator yields next given as [draws]. *)
Fixpoint random_loop (valids : list Z) (a : Z) (draws : list Z) : outcome :=
  match mask_at valids a with
  | None => Raised
  | Some v =>
      if decide (v ≠ 1) then
        match draws with
        | [] => Pending
        | a' :: rest => random_loop valids a' rest
        end
      else Returned a
  end.

(** [RandomPlayer.play]: the first draw, then the mask, then the loop. *)
Definition random_play (n : Z) (b : board) (draws : list Z) : outcome :=
  match draws with
  | [] => Pending
  | a :: rest =>
      match getValidMoves n b 1 with
      | None => Raised
      | Some valids => random_loop valids a rest
      end
  end.

(** [a[r][c]] read from the array stored at [a]. *)
Definition store_getitem (a : loc) (r c : Z) : M Z :=
  λ s, b ← s !! a; x ← getitem b r c; Some (x, s).

(** The [for action in range(...)] loop of [HumanBreakthroughPlayer.play]
    over the actions still to try.  It returns the first action whose
    result differs from the board at both parsed squares, with the array
    holding that result, and [None] when the loop runs out (the player
    then prompts again).  [parsed] is what [parse_movestr] made of the
    line read; reading and printing are left out. *)
Fixpoint scan_actions (board : loc) (parsed : Z * Z * Z * Z)
    (actions : list Z) : M (option (Z * loc)) :=
  match actions with
  | [] => ret None
  | action :: rest =>
      let '(p0, p1, p2, p3) := parsed in
      bind (getNextState 8 board 1 action) (λ '(try_next, _),
      bind (store_getitem try_next p0 p1) (λ x1,
      bind (store_getitem board p0 p1) (λ y1,
      if decide (x1 ≠ y1) then
        bind (store_getitem try_next p2 p3) (λ x2,
        bind (store_getitem board p2 p3) (λ y2,
        if decide (x2 ≠ y2) then ret (Some (action, try_next))
        else scan_actions board parsed rest))
      else scan_actions board parsed rest)))
  end.

Definition human_find (board : loc) (parsed : Z * Z * Z * Z)
  : M (option (Z * loc)) :=
  scan_actions board parsed (seqZ 0 (getActionSize 8)).

(** ** Vocabulary of the statements *)

(** The move before the two mirror steps, as the code computes it. *)
Definition base_move (n left_act : Z) : move :=
  if decide (left_act < (n - 1) * (n - 1)) then
    let i := left_act `div` (n - 1) in
    let j := left_act `mod` (n - 1) in
    Move (i + 1) j i (j + 1)
  else
    let z := left_act - (n - 1) * (n - 1) in
    let i := z `div` (n `div` 2) in
    let j := z `mod` (n `div` 2) in
    Move (i + 1) j i j.

(** The two mirror steps. *)
Definition mirror_cols (n : Z) (m : move) : move :=
  Move (src_row m) (n - src_col m - 1) (dest_row m) (n - dest_col m - 1).
Definition mirror_rows (n : Z) (m : move) : move :=
  Move (n - src_row m - 1) (src_col m) (n - dest_row m - 1) (dest_col m).

(** [m] has [r] rows, all of length [c]. *)
Definition is_mat {A} (r c : nat) (m : list (list A)) : Prop :=
  length m = r ∧ Forall (λ row, length row = c) m.

(** The cell at row [i], column [j], with indices already resolved. *)
Definition cell {A} (m : list (list A)) (i j : nat) : option A := m !! i ≫= (.!! j).

(** An [n]-by-[n] array. *)
Definition shape_ok (n : Z) (b : board) : Prop := is_mat (Z.to_nat n) (Z.to_nat n) b.

(** Every cell holds a piece of one side or is empty. *)
Definition cells_ok (b : board) : Prop :=
  Forall (Forall (λ x, x = -1 ∨ x = 0 ∨ x = 1)) b.

Definition player_ok (p : Z) : Prop := p = 1 ∨ p = -1.

Global Instance shape_ok_dec n b : Decision (shape_ok n b).
Proof. unfold shape_ok, is_mat. apply _. Defined.
Global Instance cells_ok_dec b : Decision (cells_ok b).
Proof. unfold cells_ok. apply _. Defined.
Global Instance player_ok_dec p : Decision (player_ok p).
Proof. unfold player_ok. apply _. Defined.

(** Legality of one diagonal step and of one straight step, read off a
    canonical board at resolved coordinates. *)
Definition legal_diag (c : board) (si sj di dj : nat) : option bool :=
  x ← cell c si sj; y ← cell c di dj;
  Some (bool_decide (0 < x) && bool_decide (y ≤ 0)).

Definition legal_straight (c : board) (si sj di dj : nat) : option bool :=
  x ← cell c si sj; y ← cell c di dj;
  Some (bool_decide (0 < x) && bool_decide (y = 0)).

(** Legality of a decoded move on a canonical board: the source holds a
    piece of the mover, and the destination is empty for a straight step
    and free of the mover's pieces for a diagonal one. *)
Definition legal_move (c : board) (m : move) : option bool :=
  x ← getitem c (src_row m) (src_col m);
  y ← getitem c (dest_row m) (dest_col m);
  Some (bool_decide (0 < x) &&
        (if decide (dest_col m = src_col m) then bool_decide (y = 0)
         else bool_decide (y ≤ 0))).

(** The contents of the array returned by [getNextState], as a function
    of the contents of its argument. *)
Definition next_board (n : Z) (b : board) (player action : Z) : option board :=
  let m := decode n player action in
  b1 ← setitem b (src_row m) (src_col m) 0;
  setitem b1 (dest_row m) (dest_col m) player.

Definition reached (b : board) (n r piece : Z) : Prop :=
  ∃ c, 0 ≤ c < n ∧ getitem b r c = Some piece.

(** The value the canonical form shows for a cell holding [x]. *)
Definition canonical_value (p x : Z) : Z :=
  if decide (0 < p) then x else wrap8 (x * p).

(** The actions a mask marks legal. *)
Definition legal_actions (n : Z) (mask : list Z) : list Z :=
  filter (λ a, mask_at mask a = Some 1) (seqZ 0 (getActionSize n)).

(** Legal actions whose destination column is the source column plus [d]. *)
Definition legal_with_shift (n p d : Z) (mask : list Z) : list Z :=
  filter (λ a, dest_col (decode n p a) = src_col (decode n p a) + d)
         (legal_actions n mask).

(** Legality of a move for [p], stated on the board. *)
Definition legal_on (b : board) (p : Z) (m : move) : Prop :=
  getitem b (src_row m) (src_col m) = Some p ∧
  ∃ y, getitem b (dest_row m) (dest_col m) = Some y ∧ y ≠ p ∧
       (dest_col m = src_col m → y = 0).

(** The character of a cell, where the tuple lookup succeeds. *)
Definition cell_char (x : Z) : Ascii.ascii :=
  if decide (x = 0 ∨ x = -3) then "."%char
  else if decide (x = 1 ∨ x = -2) then "W"%char else "B"%char.

(** Characters of the move notation: files [a]..[h], ranks [1]..[8]. *)
Definition file_char (f : Z) : ascii := ascii_of_nat (Z.to_nat (97 + f)).
Definition rank_char (k : Z) : ascii := ascii_of_nat (Z.to_nat (48 + k)).

(** The test of the loop body on the contents of the board. *)
Definition hit (b : board) (parsed : Z * Z * Z * Z) (a : Z) : bool :=
  let '(p0, p1, p2, p3) := parsed in
  match next_board 8 b 1 a with
  | Some b' =>
      bool_decide (getitem b' p0 p1 ≠ getitem b p0 p1) &&
      bool_decide (getitem b' p2 p3 ≠ getitem b p2 p3)
  | None => false
  end.

Definition in_board (r c : Z) : Prop := 0 ≤ r < 8 ∧ 0 ≤ c < 8.

(** The number of cells of a board that hold [v]. *)
Definition count_in (v : Z) (l : list Z) : nat := length (filter (λ x, x = v) l).
Definition count_pieces (v : Z) (b : board) : nat := count_in v (flatten b).

(** One if the cell value is [v]. *)
Definition one_if (x v : Z) : nat := if decide (x = v) then 1%nat else 0%nat.

Global Instance legal_on_dec b p m : Decision (legal_on b p m).
Proof.
  unfold legal_on.
  destruct (getitem b (dest_row m) (dest_col m)) as [y|].
  - destruct (decide (getitem b (src_row m) (src_col m) = Some p ∧ y ≠ p ∧
                      (dest_col m = src_col m → y = 0))) as [H|H].
    + left. destruct H as (? & ? & ?). split; [done|]. by exists y.
    + right. intros (? & y' & [= <-] & ? & ?). by apply H.
  - right. by intros (_ & y & ? & _).
Defined.

(** A closed decidable proposition, settled by evaluating its decision
    procedure. *)
Ltac by_compute :=
  match goal with
  | |- ?P => refine (@bool_decide_unpack P _ _); vm_compute; exact I
  end.

(** Case analysis on every cell read that occurs in the goal. *)
Ltac case_cells :=
  cbn;
  repeat match goal with
         | |- context [cell ?c ?a ?b] => destruct (cell c a b); cbn
         end;
  try done.

(** * Properties *)

(** ** The numbering of the docstring, on the 4-by-4 board *)

(** Action sizes: [(3n - 2)(n - 1)]. *)
Example action_size_4 : getActionSize 4 = 30.
Proof. reflexivity. Qed.

Example action_size_8 : getActionSize 8 = 154.
Proof. reflexivity. Qed.

(** First and last action of each of the four regions. *)
Example decode_4_regions :
  decode 4 1 <$> [0; 8; 9; 14; 15; 20; 21; 29]
  = [Move 1 0 0 1; Move 3 2 2 3; Move 1 0 0 0; Move 3 1 2 1;
     Move 3 2 2 2; Move 1 3 0 3; Move 3 1 2 0; Move 1 3 0 2].
Proof. reflexivity. Qed.

(** Side B moves towards higher rows. *)
Example decode_4_side_b : decode 4 (-1) 0 = Move 2 0 3 1.
Proof. reflexivity. Qed.

Example init_board_4 :
  getInitBoard 4
  = Some [[-1; -1; -1; -1]; [-1; -1; -1; -1]; [1; 1; 1; 1]; [1; 1; 1; 1]].
Proof. reflexivity. Qed.

(** In the 4-by-4 opening only captures are possible. *)
Example valid_moves_init_4 :
  (b ← getInitBoard 4; getValidMoves 4 b 1)
  = Some [0; 0; 0; 1; 1; 1; 0; 0; 0; 0; 0; 0; 0; 0; 0;
          0; 0; 0; 0; 0; 0; 0; 0; 0; 1; 1; 1; 0; 0; 0].
Proof. reflexivity. Qed.

Example string_representation_init_4 :
  (b ← getInitBoard 4; stringRepresentation b) = Some "BBBBBBBBWWWWWWWW"%string.
Proof. reflexivity. Qed.

(** The notation of the human player. *)
Example parse_a2a3 : parse_movestr "a2a3" = Some (6, 0, 5, 0).
Proof. reflexivity. Qed.

(** ** Arithmetic of the action space *)

(** Row and column of a cell of an [r]-by-[c] grid numbered row-major. *)
Lemma grid_coords k r c :
  0 < c → 0 ≤ k < r * c →
  0 ≤ k `div` c < r ∧ 0 ≤ k `mod` c < c ∧ k = k `div` c * c + k `mod` c.
Proof.
  intros Hc Hk.
  pose proof (Z.mod_pos_bound k c Hc).
  pose proof (Z.div_mod k c ltac:(lia)).
  assert (0 ≤ k `div` c) by (apply Z.div_pos; lia).
  assert (k `div` c < r) by (apply Z.div_lt_upper_bound; lia).
  lia.
Qed.

Section codec.
Variable n : Z.
Hypothesis Hn : size_ok n.

Lemma half_double : n = 2 * (n `div` 2).
Proof. destruct Hn as [_ Hm]. pose proof (Z.div_mod n 2). lia. Qed.

Lemma half_pos : 2 ≤ n `div` 2.
Proof. destruct Hn as [H4 _]. pose proof half_double. lia. Qed.

(** The left half of the action space is the diagonal block followed by
    the forward block. *)
Lemma action_size_split :
  getActionSize n = 2 * ((n - 1) * (n - 1) + (n - 1) * (n `div` 2)).
Proof. unfold getActionSize. pose proof half_double. nia. Qed.

(** An action and its mirror image are never the same index. *)
Lemma mirror_action_ne a : a ≠ getActionSize n - 1 - a.
Proof. rewrite action_size_split. lia. Qed.

Lemma left_act_range a :
  0 ≤ a < getActionSize n →
  0 ≤ Z.min a ((n - 1) * (3 * n - 2) - a - 1)
    < (n - 1) * (n - 1) + (n - 1) * (n `div` 2).
Proof.
  intros Ha. pose proof action_size_split as HA.
  replace ((n - 1) * (3 * n - 2)) with (getActionSize n)
    by (unfold getActionSize; ring).
  lia.
Qed.

Lemma decode_unfold player a :
  let la := Z.min a ((n - 1) * (3 * n - 2) - a - 1) in
  decode n player a =
    (if decide (player < 0) then mirror_rows n else id)
      ((if decide (la < a) then mirror_cols n else id) (base_move n la)).
Proof.
  unfold decode, base_move, mirror_rows, mirror_cols.
  repeat case_decide; reflexivity.
Qed.

Lemma base_move_range la :
  0 ≤ la < (n - 1) * (n - 1) + (n - 1) * (n `div` 2) →
  let m := base_move n la in
  1 ≤ src_row m < n ∧ 0 ≤ dest_row m < n - 1 ∧
  src_row m = dest_row m + 1 ∧
  0 ≤ src_col m < n ∧ 0 ≤ dest_col m < n ∧
  (dest_col m = src_col m ∨ dest_col m = src_col m + 1).
Proof.
  intros Hla. destruct Hn as [H4 _]. pose proof half_pos as Hh.
  pose proof half_double as Hd.
  unfold base_move. case_decide as Hr; cbn.
  - destruct (grid_coords la (n - 1) (n - 1)) as (? & ? & _); lia.
  - destruct (grid_coords (la - (n - 1) * (n - 1)) (n - 1) (n `div` 2))
      as (? & ? & _); lia.
Qed.

Lemma decode_range player a :
  0 ≤ a < getActionSize n →
  let m := decode n player a in
  0 ≤ src_row m < n ∧ 0 ≤ src_col m < n ∧
  0 ≤ dest_row m < n ∧ 0 ≤ dest_col m < n.
Proof.
  intros Ha. cbv zeta. rewrite decode_unfold.
  pose proof (base_move_range _ (left_act_range a Ha)) as Hb. cbv zeta in Hb.
  unfold mirror_rows, mirror_cols.
  repeat case_decide; cbn; lia.
Qed.

Lemma decode_step player a :
  0 ≤ a < getActionSize n →
  let m := decode n player a in
  dest_row m = (if decide (player < 0) then src_row m + 1 else src_row m - 1)
  ∧ (dest_col m = src_col m ∨ dest_col m = src_col m + 1
     ∨ dest_col m = src_col m - 1).
Proof.
  intros Ha. cbv zeta. rewrite decode_unfold.
  pose proof (base_move_range _ (left_act_range a Ha)) as Hb. cbv zeta in Hb.
  unfold mirror_rows, mirror_cols.
  repeat case_decide; cbn; lia.
Qed.

(** The two halves of the action space decode to mirrored columns. *)
Lemma decode_mirror player a :
  0 ≤ a < getActionSize n →
  decode n player (getActionSize n - 1 - a) = mirror_cols n (decode n player a).
Proof.
  intros Ha. rewrite !decode_unfold. cbv zeta.
  replace ((n - 1) * (3 * n - 2)) with (getActionSize n)
    by (unfold getActionSize; ring).
  pose proof (mirror_action_ne a) as Hne.
  replace (getActionSize n - (getActionSize n - 1 - a) - 1) with a by lia.
  rewrite (Z.min_comm (getActionSize n - 1 - a) a).
  replace (getActionSize n - a - 1) with (getActionSize n - 1 - a) by lia.
  pose proof (Z.min_spec a (getActionSize n - 1 - a)) as Hmin.
  revert Hmin. generalize (Z.min a (getActionSize n - 1 - a)). intros la Hmin.
  destruct (base_move n la) as [sr sc dr dc].
  unfold mirror_rows, mirror_cols.
  repeat case_decide; cbn; try lia; f_equal; lia.
Qed.

End codec.

(** ** Rectangular arrays *)

Section matrix.
Context {A : Type}.
Implicit Types m : list (list A).

Lemma is_mat_row r c m i row :
  is_mat r c m → m !! i = Some row → length row = c ∧ (i < r)%nat.
Proof.
  intros [Hl Hf] Hi. split.
  - rewrite Forall_lookup in Hf. eauto.
  - apply lookup_lt_Some in Hi. lia.
Qed.

Lemma is_mat_cell_Some r c m i j :
  is_mat r c m → (i < r)%nat → (j < c)%nat → is_Some (cell m i j).
Proof.
  intros Hm Hi Hj. unfold cell.
  destruct (m !! i) as [row|] eqn:E.
  - destruct (is_mat_row _ _ _ _ _ Hm E) as [Hr _]. cbn.
    apply lookup_lt_is_Some. lia.
  - apply lookup_ge_None in E. destruct Hm. lia.
Qed.

Lemma is_mat_ext r c m1 m2 :
  is_mat r c m1 → is_mat r c m2 →
  (∀ i j, (i < r)%nat → (j < c)%nat → cell m1 i j = cell m2 i j) →
  m1 = m2.
Proof.
  intros H1 H2 Hc. apply list_eq. intros i.
  destruct (decide (i < r)%nat) as [Hi|Hi].
  - destruct (lookup_lt_is_Some_2 m1 i) as [r1 E1]; [destruct H1; lia|].
    destruct (lookup_lt_is_Some_2 m2 i) as [r2 E2]; [destruct H2; lia|].
    rewrite E1, E2. f_equal.
    destruct (is_mat_row _ _ _ _ _ H1 E1) as [L1 _].
    destruct (is_mat_row _ _ _ _ _ H2 E2) as [L2 _].
    apply list_eq. intros j.
    destruct (decide (j < c)%nat) as [Hj|Hj].
    + specialize (Hc i j Hi Hj). unfold cell in Hc.
      by rewrite E1, E2 in Hc.
    + rewrite !lookup_ge_None_2; [done|lia|lia].
  - destruct H1, H2. rewrite !lookup_ge_None_2; [done|lia|lia].
Qed.

Lemma is_mat_flipud r c m : is_mat r c m → is_mat r c (flipud m).
Proof.
  intros [Hl Hf]. split.
  - unfold flipud. by rewrite length_reverse.
  - unfold flipud. by apply Forall_reverse.
Qed.

Lemma is_mat_fliplr r c m : is_mat r c m → is_mat r c (fliplr m).
Proof.
  intros [Hl Hf]. split.
  - unfold fliplr. by rewrite length_fmap.
  - unfold fliplr. apply Forall_fmap. eapply Forall_impl; [exact Hf|].
    intros row Hr. cbn. by rewrite length_reverse.
Qed.

Lemma is_mat_rows_from r c m (k : nat) :
  is_mat r c m → is_mat (r - k) c (slice_from (Z.of_nat k) m).
Proof.
  intros [Hl Hf]. unfold slice_from. rewrite decide_True by lia.
  rewrite Nat2Z.id. split.
  - rewrite length_drop. lia.
  - by apply Forall_drop.
Qed.

Lemma is_mat_rows_but_last r c m :
  is_mat r c m → is_mat (r - 1) c (slice_to (-1) m).
Proof.
  intros [Hl Hf]. unfold slice_to. rewrite decide_False by lia.
  split.
  - rewrite length_take. change (Z.to_nat (- -1)) with 1%nat. lia.
  - by apply Forall_take.
Qed.

Lemma is_mat_map_rows r c c' m (f : list A → list A) :
  is_mat r c m → (∀ row, length row = c → length (f row) = c') →
  is_mat r c' (f <$> m).
Proof.
  intros [Hl Hf] Hrow. split.
  - by rewrite length_fmap.
  - apply Forall_fmap. eapply Forall_impl; [exact Hf|]. intros row. cbn. auto.
Qed.

Lemma length_slice_from_nat (k : nat) (l : list A) :
  length (slice_from (Z.of_nat k) l) = (length l - k)%nat.
Proof.
  unfold slice_from. rewrite decide_True by lia.
  by rewrite Nat2Z.id, length_drop.
Qed.

Lemma length_slice_to_nat (k : nat) (l : list A) :
  (k ≤ length l)%nat → length (slice_to (Z.of_nat k) l) = k.
Proof.
  intros Hk. unfold slice_to. rewrite decide_True by lia.
  rewrite Nat2Z.id, length_take. lia.
Qed.

Lemma length_slice_but_last (l : list A) :
  length (slice_to (-1) l) = (length l - 1)%nat.
Proof.
  unfold slice_to. rewrite decide_False by lia.
  rewrite length_take. change (Z.to_nat (- -1)) with 1%nat. lia.
Qed.

Lemma lookup_slice_from_nat (k : nat) (l : list A) i :
  slice_from (Z.of_nat k) l !! i = l !! (k + i)%nat.
Proof.
  unfold slice_from. rewrite decide_True by lia.
  by rewrite Nat2Z.id, lookup_drop.
Qed.

Lemma lookup_slice_to_nat (k : nat) (l : list A) i :
  (i < k)%nat → slice_to (Z.of_nat k) l !! i = l !! i.
Proof.
  intros Hi. unfold slice_to. rewrite decide_True by lia.
  rewrite Nat2Z.id. by apply lookup_take_lt.
Qed.

Lemma lookup_slice_but_last (l : list A) i :
  (i < length l - 1)%nat → slice_to (-1) l !! i = l !! i.
Proof.
  intros Hi. unfold slice_to. rewrite decide_False by lia.
  change (Z.to_nat (- -1)) with 1%nat. by apply lookup_take_lt.
Qed.

Lemma cell_flipud r c m i j :
  is_mat r c m → (i < r)%nat → cell (flipud m) i j = cell m (r - 1 - i) j.
Proof.
  intros [Hl _] Hi. unfold cell, flipud.
  rewrite reverse_lookup by lia. do 2 f_equal. lia.
Qed.

Lemma cell_fliplr r c m i j :
  is_mat r c m → (j < c)%nat → cell (fliplr m) i j = cell m i (c - 1 - j).
Proof.
  intros Hm Hj. unfold cell, fliplr. rewrite list_lookup_fmap.
  destruct (m !! i) as [row|] eqn:E; [|done]. cbn.
  destruct (is_mat_row _ _ _ _ _ Hm E) as [Hr _].
  rewrite reverse_lookup by lia. f_equal. lia.
Qed.

Lemma cell_map_rows m (f : list A → list A) i j :
  cell (f <$> m) i j = m !! i ≫= λ row, f row !! j.
Proof. unfold cell. rewrite list_lookup_fmap. by destruct (m !! i). Qed.

(** Row-major numbering of the cells of a rectangular array. *)
Lemma flatten_lookup r c m i j :
  is_mat r c m → (j < c)%nat → flatten m !! (i * c + j)%nat = cell m i j.
Proof.
  intros [Hl Hf] Hj. unfold flatten, cell.
  destruct (m !! i ≫= (.!! j)) as [x|] eqn:E.
  - apply (join_lookup_Some_same_length c); [done|].
    destruct (m !! i) as [row|] eqn:Er; [|done]. cbn in E.
    exists i, row, j. done.
  - apply eq_None_not_Some. intros [x Hx].
    apply (join_lookup_Some_same_length c) in Hx; [|done].
    destruct Hx as (i' & row & j' & Hrow & Hx & Heq).
    assert (j' < c)%nat.
    { apply lookup_lt_Some in Hx. rewrite Forall_lookup in Hf.
      by rewrite <- (Hf _ _ Hrow). }
    assert (i' = i) by nia. subst i'. assert (j' = j) by nia. subst j'.
    rewrite Hrow in E. cbn in E. congruence.
Qed.

Lemma length_flatten r c m : is_mat r c m → length (flatten m) = (r * c)%nat.
Proof.
  intros [Hl Hf]. unfold flatten. rewrite length_join.
  rewrite (sum_list_fmap_same c) by done. lia.
Qed.

End matrix.

(** ** Elementwise operations on rectangular arrays *)

Lemma is_mat_lengths {A} r c (m : list (list A)) :
  is_mat r c m → length <$> m = replicate r c.
Proof.
  intros [Hl Hf]. subst r. induction Hf as [|row m Hrow _ IH]; [done|].
  cbn. by rewrite Hrow, IH.
Qed.

Lemma is_mat_map_cells {A B} r c (f : A → B) (m : list (list A)) :
  is_mat r c m → is_mat r c (fmap (M := list) f <$> m).
Proof.
  intros [Hl Hf]. split.
  - by rewrite length_fmap.
  - apply Forall_fmap. eapply Forall_impl; [exact Hf|].
    intros row Hr. cbn. by rewrite length_fmap.
Qed.

Lemma cell_map_cells {A B} (f : A → B) (m : list (list A)) i j :
  cell (fmap (M := list) f <$> m) i j = f <$> cell m i j.
Proof.
  unfold cell. rewrite list_lookup_fmap.
  destruct (m !! i) as [row|]; [|done]. cbn. by rewrite list_lookup_fmap.
Qed.

Lemma logical_and_mat r c (x y : list (list bool)) :
  is_mat r c x → is_mat r c y →
  ∃ z, logical_and x y = Some z ∧ is_mat r c z ∧
       ∀ i j, cell z i j = (a ← cell x i j; b ← cell y i j; Some (a && b)).
Proof.
  intros Hx Hy. exists (zip_with (zip_with andb) x y). split; [|split].
  - unfold logical_and.
    rewrite (is_mat_lengths _ _ _ Hx), (is_mat_lengths _ _ _ Hy).
    by rewrite decide_True.
  - destruct Hx as [Lx Fx], Hy as [Ly Fy]. split.
    + rewrite length_zip_with. lia.
    + apply Forall_lookup. intros i row Hrow.
      rewrite lookup_zip_with in Hrow.
      destruct (x !! i) as [rx|] eqn:Ex; [|done].
      destruct (y !! i) as [ry|] eqn:Ey; [|done]. cbn in Hrow.
      injection Hrow as <-. rewrite length_zip_with.
      rewrite Forall_lookup in Fx. rewrite Forall_lookup in Fy.
      rewrite (Fx _ _ Ex), (Fy _ _ Ey). lia.
  - intros i j. unfold cell. rewrite lookup_zip_with.
    destruct (x !! i) as [rx|], (y !! i) as [ry|]; cbn; try done.
    + by rewrite lookup_zip_with.
    + by destruct (rx !! j).
Qed.

(** A block of the board: rows selected by [fr], columns by [fc]. *)
Lemma cell_block {A} (c : list (list A)) (rows : list (list A))
    (fc : list A → list A) i j i' j' :
  rows !! i = c !! i' →
  (∀ row, c !! i' = Some row → fc row !! j = row !! j') →
  cell (fc <$> rows) i j = cell c i' j'.
Proof.
  intros Hr Hc. rewrite cell_map_rows. unfold cell. rewrite Hr.
  destruct (c !! i') as [row|] eqn:E; [|done]. cbn. by apply Hc.
Qed.

(** ** The four regions of the validity mask *)

Lemma tail_rows_lookup (c : board) i : slice_from 1 c !! i = c !! (1 + i)%nat.
Proof. apply (lookup_slice_from_nat 1). Qed.

Lemma init_rows_lookup N (c : board) i :
  is_mat N N c → (i < N - 1)%nat → slice_to (-1) c !! i = c !! i.
Proof. intros [Hl _] Hi. apply lookup_slice_but_last. lia. Qed.

Lemma tail_rows_mat N (c : board) : is_mat N N c → is_mat (N - 1) N (slice_from 1 c).
Proof. intros Hc. by apply (is_mat_rows_from N N c 1). Qed.

Lemma init_rows_mat N (c : board) : is_mat N N c → is_mat (N - 1) N (slice_to (-1) c).
Proof. intros Hc. by apply is_mat_rows_but_last. Qed.

(** Shapes of the column slices. *)
Lemma len_cols_but_last N (row : list Z) :
  length row = N → length (slice_to (-1) row) = (N - 1)%nat.
Proof. intros <-. apply length_slice_but_last. Qed.

Lemma len_cols_from1 N (row : list Z) :
  length row = N → length (slice_from 1 row) = (N - 1)%nat.
Proof. intros <-. apply (length_slice_from_nat 1). Qed.

Lemma len_cols_to_half N H (row : list Z) :
  (H ≤ N)%nat → length row = N → length (slice_to (Z.of_nat H) row) = H.
Proof. intros HH Hr. apply length_slice_to_nat. lia. Qed.

Lemma len_cols_from_half N H (row : list Z) :
  length row = N → length (slice_from (Z.of_nat H) row) = (N - H)%nat.
Proof. intros <-. apply length_slice_from_nat. Qed.

(** Region 1: right diagonals. *)
Lemma region1_src N (c : board) i j :
  is_mat N N c → (j < N - 1)%nat →
  cell (slice_to (-1) <$> slice_from 1 c) i j = cell c (1 + i) j.
Proof.
  intros Hc Hj. apply cell_block; [apply tail_rows_lookup|].
  intros row E. apply lookup_slice_but_last.
  destruct (is_mat_row _ _ _ _ _ Hc E) as [-> _]. lia.
Qed.

Lemma region1_dest N (c : board) i j :
  is_mat N N c → (i < N - 1)%nat →
  cell (slice_from 1 <$> slice_to (-1) c) i j = cell c i (1 + j).
Proof.
  intros Hc Hi. apply cell_block; [by apply (init_rows_lookup N)|].
  intros row E. apply (lookup_slice_from_nat 1).
Qed.

(** Region 2: straight moves in the left half. *)
Lemma region2_src H (c : board) i j :
  (j < H)%nat →
  cell (slice_to (Z.of_nat H) <$> slice_from 1 c) i j = cell c (1 + i) j.
Proof.
  intros Hj. apply cell_block; [apply tail_rows_lookup|].
  intros row E. by apply lookup_slice_to_nat.
Qed.

Lemma region2_dest N H (c : board) i j :
  is_mat N N c → (i < N - 1)%nat → (j < H)%nat →
  cell (slice_to (Z.of_nat H) <$> slice_to (-1) c) i j = cell c i j.
Proof.
  intros Hc Hi Hj. apply cell_block; [by apply (init_rows_lookup N)|].
  intros row E. by apply lookup_slice_to_nat.
Qed.

(** Region 3: straight moves in the right half, rows reversed. *)
Lemma region3_src N H (c : board) i j :
  is_mat N N c → (i < N - 1)%nat →
  cell (flipud (slice_from (Z.of_nat H) <$> slice_from 1 c)) i j
  = cell c (N - 1 - i) (H + j).
Proof.
  intros Hc Hi.
  rewrite (cell_flipud (N - 1) (N - H)); [| |done].
  2:{ eapply is_mat_map_rows; [by apply tail_rows_mat|apply len_cols_from_half]. }
  apply cell_block.
  - rewrite tail_rows_lookup. f_equal. lia.
  - intros row E. apply lookup_slice_from_nat.
Qed.

Lemma region3_dest N H (c : board) i j :
  is_mat N N c → (i < N - 1)%nat →
  cell (flipud (slice_from (Z.of_nat H) <$> slice_to (-1) c)) i j
  = cell c (N - 2 - i) (H + j).
Proof.
  intros Hc Hi.
  rewrite (cell_flipud (N - 1) (N - H)); [| |done].
  2:{ eapply is_mat_map_rows; [by apply init_rows_mat|apply len_cols_from_half]. }
  apply cell_block.
  - rewrite (init_rows_lookup N) by (done || lia). f_equal. lia.
  - intros row E. apply lookup_slice_from_nat.
Qed.

(** Region 4: left diagonals, rows reversed. *)
Lemma region4_src N (c : board) i j :
  is_mat N N c → (i < N - 1)%nat →
  cell (flipud (slice_from 1 <$> slice_from 1 c)) i j
  = cell c (N - 1 - i) (1 + j).
Proof.
  intros Hc Hi.
  rewrite (cell_flipud (N - 1) (N - 1)); [| |done].
  2:{ eapply is_mat_map_rows; [by apply tail_rows_mat|apply len_cols_from1]. }
  apply cell_block.
  - rewrite tail_rows_lookup. f_equal. lia.
  - intros row E. apply (lookup_slice_from_nat 1).
Qed.

Lemma region4_dest N (c : board) i j :
  is_mat N N c → (i < N - 1)%nat → (j < N - 1)%nat →
  cell (flipud (slice_to (-1) <$> slice_to (-1) c)) i j
  = cell c (N - 2 - i) j.
Proof.
  intros Hc Hi Hj.
  rewrite (cell_flipud (N - 1) (N - 1)); [| |done].
  2:{ eapply is_mat_map_rows; [by apply init_rows_mat|apply len_cols_but_last]. }
  apply cell_block.
  - rewrite (init_rows_lookup N) by (done || lia). f_equal. lia.
  - intros row E. apply lookup_slice_but_last.
    destruct (is_mat_row _ _ _ _ _ Hc E) as [-> _]. lia.
Qed.

(** ** Boards *)

Lemma np_index_in_range len i :
  0 ≤ i < Z.of_nat len → np_index len i = Some (Z.to_nat i).
Proof. intros Hi. unfold np_index. by rewrite decide_True. Qed.

Lemma getitem_cell n b r c :
  shape_ok n b → 0 ≤ r < n → 0 ≤ c < n →
  getitem b r c = cell b (Z.to_nat r) (Z.to_nat c).
Proof.
  intros Hb Hr Hcol. unfold getitem, getrow, cell.
  rewrite np_index_in_range by (destruct Hb; lia). cbn.
  destruct (b !! Z.to_nat r) as [row|] eqn:E; [|done]. cbn.
  destruct (is_mat_row _ _ _ _ _ Hb E) as [Hlen _].
  rewrite np_index_in_range by lia. done.
Qed.

Lemma getitem_is_Some n b r c :
  shape_ok n b → 0 ≤ r < n → 0 ≤ c < n → is_Some (getitem b r c).
Proof.
  intros Hb Hr Hcol. rewrite (getitem_cell n) by done.
  eapply is_mat_cell_Some; [exact Hb|lia|lia].
Qed.

Lemma canonical_shape n b p : shape_ok n b → shape_ok n (getCanonicalForm n b p).
Proof.
  intros Hb. unfold getCanonicalForm. case_decide; [done|].
  apply is_mat_flipud. by apply is_mat_map_cells.
Qed.

(** Cells of the canonical form in terms of the cells of the board. *)
Lemma canonical_cell n b p i j :
  shape_ok n b → (i < Z.to_nat n)%nat →
  cell (getCanonicalForm n b p) i j =
    if decide (0 < p) then cell b i j
    else (λ x, wrap8 (x * p)) <$> cell b (Z.to_nat n - 1 - i) j.
Proof.
  intros Hb Hi. unfold getCanonicalForm. case_decide; [done|].
  rewrite (cell_flipud (Z.to_nat n) (Z.to_nat n)); [| |done].
  - apply cell_map_cells.
  - by apply is_mat_map_cells.
Qed.

(** ** The validity mask, region by region *)

Section mask.
Variable n : Z.
Hypothesis Hn : size_ok n.

Let N := Z.to_nat n.
Let H := Z.to_nat (n `div` 2).

Lemma N_ge : (4 ≤ N)%nat.
Proof. destruct Hn. subst N. lia. Qed.

Lemma N_half : (N = H + H)%nat.
Proof. pose proof (half_double n Hn). pose proof (half_pos n Hn). subst N H. lia. Qed.

Lemma half_of_nat : n `div` 2 = Z.of_nat H.
Proof. pose proof (half_pos n Hn). subst H. lia. Qed.

Lemma getValidMoves_regions b p :
  shape_ok n b →
  let c := getCanonicalForm n b p in
  ∃ f1 f2 f3 f4 : list bool,
    getValidMoves n b p = Some (bool_to_int8 <$> f1 ++ f2 ++ f3 ++ f4) ∧
    length f1 = ((N - 1) * (N - 1))%nat ∧
    length f2 = ((N - 1) * H)%nat ∧
    length f3 = ((N - 1) * H)%nat ∧
    length f4 = ((N - 1) * (N - 1))%nat ∧
    (∀ i j, (i < N - 1)%nat → (j < N - 1)%nat →
       f1 !! (i * (N - 1) + j)%nat = legal_diag c (1 + i) j i (1 + j)) ∧
    (∀ i j, (i < N - 1)%nat → (j < H)%nat →
       f2 !! (i * H + j)%nat = legal_straight c (1 + i) j i j) ∧
    (∀ i j, (i < N - 1)%nat → (j < H)%nat →
       f3 !! (i * H + j)%nat
       = legal_straight c (N - 1 - i) (H + j) (N - 2 - i) (H + j)) ∧
    (∀ i j, (i < N - 1)%nat → (j < N - 1)%nat →
       f4 !! (i * (N - 1) + j)%nat
       = legal_diag c (N - 1 - i) (1 + j) (N - 2 - i) j).
Proof.
  intros Hb c.
  assert (Hc : is_mat N N c) by (by apply canonical_shape).
  pose proof N_ge as HN. pose proof N_half as HNH.
  assert (HH : (H ≤ N)%nat) by lia.
  assert (HN2 : (2 ≤ N)%nat) by lia.
  unfold getValidMoves. fold c. rewrite half_of_nat.
  (* shapes of the eight operands *)
  pose proof (tail_rows_mat N c Hc) as Ht.
  pose proof (init_rows_mat N c Hc) as Hi.
  assert (S1 : is_mat (N - 1) (N - 1) (gt0 (slice_to (-1) <$> slice_from 1 c))).
  { eapply is_mat_map_cells, is_mat_map_rows; [done|apply len_cols_but_last]. }
  assert (D1 : is_mat (N - 1) (N - 1) (le0 (slice_from 1 <$> slice_to (-1) c))).
  { eapply is_mat_map_cells, is_mat_map_rows; [done|apply len_cols_from1]. }
  assert (S2 : is_mat (N - 1) H (gt0 (slice_to (Z.of_nat H) <$> slice_from 1 c))).
  { eapply is_mat_map_cells, is_mat_map_rows; [done|intros row; by apply len_cols_to_half]. }
  assert (D2 : is_mat (N - 1) H (eq0 (slice_to (Z.of_nat H) <$> slice_to (-1) c))).
  { eapply is_mat_map_cells, is_mat_map_rows; [done|intros row; by apply len_cols_to_half]. }
  assert (S3 : is_mat (N - 1) H
                 (gt0 (flipud (slice_from (Z.of_nat H) <$> slice_from 1 c)))).
  { apply is_mat_map_cells, is_mat_flipud.
    replace H with (N - H)%nat at 1 by lia.
    eapply is_mat_map_rows; [done|apply len_cols_from_half]. }
  assert (D3 : is_mat (N - 1) H
                 (eq0 (flipud (slice_from (Z.of_nat H) <$> slice_to (-1) c)))).
  { apply is_mat_map_cells, is_mat_flipud.
    replace H with (N - H)%nat at 1 by lia.
    eapply is_mat_map_rows; [done|apply len_cols_from_half]. }
  assert (S4 : is_mat (N - 1) (N - 1)
                 (gt0 (flipud (slice_from 1 <$> slice_from 1 c)))).
  { eapply is_mat_map_cells, is_mat_flipud, is_mat_map_rows;
      [done|apply len_cols_from1]. }
  assert (D4 : is_mat (N - 1) (N - 1)
                 (le0 (flipud (slice_to (-1) <$> slice_to (-1) c)))).
  { eapply is_mat_map_cells, is_mat_flipud, is_mat_map_rows;
      [done|apply len_cols_but_last]. }
  destruct (logical_and_mat _ _ _ _ S1 D1) as (z1 & -> & M1 & C1).
  destruct (logical_and_mat _ _ _ _ S2 D2) as (z2 & -> & M2 & C2).
  destruct (logical_and_mat _ _ _ _ S3 D3) as (z3 & -> & M3 & C3).
  destruct (logical_and_mat _ _ _ _ S4 D4) as (z4 & -> & M4 & C4).
  cbn. exists (flatten z1), (flatten z2), (flatten z3), (flatten z4).
  split; [done|].
  rewrite (length_flatten _ _ _ M1), (length_flatten _ _ _ M2),
    (length_flatten _ _ _ M3), (length_flatten _ _ _ M4).
  do 4 (split; [done|]).
  unfold legal_diag, legal_straight, gt0, le0, eq0 in *.
  split; [|split; [|split]]; intros i j Hi' Hj'.
  - rewrite (flatten_lookup _ _ _ _ _ M1) by done. rewrite C1.
    rewrite !cell_map_cells.
    rewrite (region1_src N) by done.
    rewrite (region1_dest N) by done.
    case_cells.
  - rewrite (flatten_lookup _ _ _ _ _ M2) by done. rewrite C2.
    rewrite !cell_map_cells.
    rewrite (region2_src H) by done.
    rewrite (region2_dest N H) by done.
    case_cells.
  - rewrite (flatten_lookup _ _ _ _ _ M3) by done. rewrite C3.
    rewrite !cell_map_cells.
    rewrite (region3_src N H) by done.
    rewrite (region3_dest N H) by done.
    case_cells.
  - rewrite (flatten_lookup _ _ _ _ _ M4) by done. rewrite C4.
    rewrite !cell_map_cells.
    rewrite (region4_src N) by done.
    rewrite (region4_dest N) by done.
    case_cells.
Qed.

End mask.

(** ** Decoding, region by region *)

Lemma grid_div_mod i j c :
  0 ≤ j < c → (i * c + j) `div` c = i ∧ (i * c + j) `mod` c = j.
Proof.
  intros Hj. split.
  - symmetry. apply (Z.div_unique _ _ i j); lia.
  - symmetry. apply (Z.mod_unique _ _ i j); lia.
Qed.

Lemma to_nat_grid i j c :
  0 ≤ i → 0 ≤ j → 0 ≤ c →
  Z.to_nat (i * c + j) = (Z.to_nat i * Z.to_nat c + Z.to_nat j)%nat.
Proof.
  intros Hi Hj Hc. rewrite Z2Nat.inj_add by nia.
  by rewrite Z2Nat.inj_mul by lia.
Qed.

Lemma grid_index_lt (i j r c : nat) :
  (i < r)%nat → (j < c)%nat → (i * c + j < r * c)%nat.
Proof. nia. Qed.

Lemma grid_index_nonneg i j c : 0 ≤ i → 0 ≤ j → 0 ≤ c → 0 ≤ i * c + j.
Proof. nia. Qed.

Lemma to_nat_offset (k : nat) (z : Z) :
  0 ≤ z → Z.to_nat (Z.of_nat k + z) = (k + Z.to_nat z)%nat.
Proof. lia. Qed.

Section decode_regions.
Variable n : Z.
Hypothesis Hn : size_ok n.

Let w := n - 1.
Let h := n `div` 2.
Let Q := w * w.
Let P := w * h.

Lemma action_size_QP : getActionSize n = 2 * Q + 2 * P.
Proof. rewrite (action_size_split n Hn). subst Q P w h. lia. Qed.

Lemma min_left a : a < Q + P →
  Z.min a ((n - 1) * (3 * n - 2) - a - 1) = a.
Proof.
  intros Ha. pose proof action_size_QP as HA.
  replace ((n - 1) * (3 * n - 2)) with (getActionSize n)
    by (unfold getActionSize; ring).
  lia.
Qed.

Lemma min_right a : Q + P ≤ a →
  Z.min a ((n - 1) * (3 * n - 2) - a - 1) = 2 * Q + 2 * P - 1 - a.
Proof.
  intros Ha. pose proof action_size_QP as HA.
  replace ((n - 1) * (3 * n - 2)) with (getActionSize n)
    by (unfold getActionSize; ring).
  lia.
Qed.

Lemma decode_region1 i j :
  0 ≤ i < w → 0 ≤ j < w →
  decode n 1 (i * w + j) = Move (i + 1) j i (j + 1).
Proof.
  intros Hi Hj. pose proof (half_pos n Hn) as Hh.
  assert (i * w + j < Q) by (subst Q; nia).
  assert (0 ≤ P) by (subst P w h; nia).
  rewrite (decode_unfold n). cbv zeta. rewrite min_left by lia.
  rewrite decide_False by lia. rewrite decide_False by lia.
  unfold base_move. fold w. fold Q. rewrite decide_True by lia.
  destruct (grid_div_mod i j w Hj) as [-> ->]. done.
Qed.

Lemma decode_region2 i j :
  0 ≤ i < w → 0 ≤ j < h →
  decode n 1 (Q + i * h + j) = Move (i + 1) j i j.
Proof.
  intros Hi Hj.
  assert (0 ≤ Q) by (subst Q; nia).
  assert (i * h + j < P) by (subst P; nia).
  assert (0 ≤ i * h + j) by nia.
  rewrite (decode_unfold n). cbv zeta. rewrite min_left by lia.
  rewrite decide_False by lia. rewrite decide_False by lia.
  unfold base_move. fold w. fold Q. rewrite decide_False by lia.
  replace (Q + i * h + j - Q) with (i * h + j) by lia. fold h.
  destruct (grid_div_mod i j h Hj) as [-> ->]. done.
Qed.

Lemma decode_region3 i j :
  0 ≤ i < w → 0 ≤ j < h →
  decode n 1 (Q + P + i * h + j)
  = Move (n - 1 - i) (h + j) (n - 2 - i) (h + j).
Proof.
  intros Hi Hj. pose proof (half_double n Hn) as Hd. fold h in Hd.
  assert (0 ≤ Q) by (subst Q; nia).
  assert (i * h + j < P) by (subst P; nia).
  assert (0 ≤ i * h + j) by nia.
  rewrite (decode_unfold n). cbv zeta. rewrite min_right by lia.
  rewrite decide_False by lia. rewrite decide_True by lia.
  unfold base_move. fold w. fold Q. rewrite decide_False by lia.
  replace (2 * Q + 2 * P - 1 - (Q + P + i * h + j) - Q)
    with ((w - 1 - i) * h + (h - 1 - j)) by (subst P; lia).
  fold h.
  destruct (grid_div_mod (w - 1 - i) (h - 1 - j) h) as [-> ->]; [lia|].
  unfold mirror_cols. cbn. subst w. f_equal; lia.
Qed.

Lemma decode_region4 i j :
  0 ≤ i < w → 0 ≤ j < w →
  decode n 1 (Q + P + P + i * w + j)
  = Move (n - 1 - i) (1 + j) (n - 2 - i) j.
Proof.
  intros Hi Hj.
  assert (0 ≤ P) by (pose proof (half_pos n Hn); subst P w h; nia).
  assert (i * w + j < Q) by (subst Q; nia).
  assert (0 ≤ i * w + j) by nia.
  rewrite (decode_unfold n). cbv zeta. rewrite min_right by lia.
  rewrite decide_False by lia. rewrite decide_True by lia.
  unfold base_move. fold w. fold Q. rewrite decide_True by lia.
  replace (2 * Q + 2 * P - 1 - (Q + P + P + i * w + j))
    with ((w - 1 - i) * w + (w - 1 - j)) by (subst Q; lia).
  destruct (grid_div_mod (w - 1 - i) (w - 1 - j) w) as [-> ->]; [lia|].
  unfold mirror_cols. cbn. subst w. f_equal; lia.
Qed.

(** Every action lies in exactly one of the four regions. *)
Lemma action_regions a :
  0 ≤ a < getActionSize n →
  (∃ i j, 0 ≤ i < w ∧ 0 ≤ j < w ∧ a = i * w + j) ∨
  (∃ i j, 0 ≤ i < w ∧ 0 ≤ j < h ∧ a = Q + i * h + j) ∨
  (∃ i j, 0 ≤ i < w ∧ 0 ≤ j < h ∧ a = Q + P + i * h + j) ∨
  (∃ i j, 0 ≤ i < w ∧ 0 ≤ j < w ∧ a = Q + P + P + i * w + j).
Proof.
  intros Ha. rewrite action_size_QP in Ha.
  pose proof (half_pos n Hn) as Hh. fold h in Hh.
  assert (Hw : 0 < w) by (destruct Hn; subst w; lia).
  destruct (decide (a < Q)) as [H1|H1];
    [|destruct (decide (a < Q + P)) as [H2|H2];
      [|destruct (decide (a < Q + P + P)) as [H3|H3]]].
  - left. destruct (grid_coords a w w) as (? & ? & ?); [lia|subst Q; lia|].
    eauto 10.
  - right; left.
    destruct (grid_coords (a - Q) w h) as (? & ? & ?); [lia|subst P; lia|].
    exists ((a - Q) `div` h), ((a - Q) `mod` h). repeat split; lia.
  - right; right; left.
    destruct (grid_coords (a - Q - P) w h) as (? & ? & ?); [lia|subst P; lia|].
    exists ((a - Q - P) `div` h), ((a - Q - P) `mod` h). repeat split; lia.
  - right; right; right.
    destruct (grid_coords (a - Q - P - P) w w) as (? & ? & ?);
      [lia|subst Q; lia|].
    exists ((a - Q - P - P) `div` w), ((a - Q - P - P) `mod` w).
    repeat split; lia.
Qed.

End decode_regions.

(** ** The mask agrees with the decoder *)

Lemma lookup_app_plus {A} (l1 l2 : list A) k :
  (l1 ++ l2) !! (length l1 + k)%nat = l2 !! k.
Proof. rewrite lookup_app_r by lia. f_equal. lia. Qed.

Lemma legal_diag_move n c (si sj di dj : Z) :
  shape_ok n c →
  0 ≤ si < n → 0 ≤ sj < n → 0 ≤ di < n → 0 ≤ dj < n → dj ≠ sj →
  legal_move c (Move si sj di dj)
  = legal_diag c (Z.to_nat si) (Z.to_nat sj) (Z.to_nat di) (Z.to_nat dj).
Proof.
  intros Hc ? ? ? ? Hne. unfold legal_move, legal_diag.
  cbn [src_row src_col dest_row dest_col].
  rewrite !(getitem_cell n) by done.
  destruct (cell c (Z.to_nat si) (Z.to_nat sj)); [|done].
  destruct (cell c (Z.to_nat di) (Z.to_nat dj)); [|done].
  cbn [mbind option_bind]. by rewrite decide_False.
Qed.

Lemma legal_straight_move n c (si sj di : Z) :
  shape_ok n c →
  0 ≤ si < n → 0 ≤ sj < n → 0 ≤ di < n →
  legal_move c (Move si sj di sj)
  = legal_straight c (Z.to_nat si) (Z.to_nat sj) (Z.to_nat di) (Z.to_nat sj).
Proof.
  intros Hc ? ? ?. unfold legal_move, legal_straight.
  cbn [src_row src_col dest_row dest_col].
  rewrite !(getitem_cell n) by done.
  destruct (cell c (Z.to_nat si) (Z.to_nat sj)); [|done].
  destruct (cell c (Z.to_nat di) (Z.to_nat sj)); [|done].
  cbn [mbind option_bind]. by rewrite decide_True.
Qed.

Theorem valid_mask_decode n b p :
  size_ok n → shape_ok n b →
  ∃ mask, getValidMoves n b p = Some mask ∧
    Z.of_nat (length mask) = getActionSize n ∧
    ∀ a, 0 ≤ a < getActionSize n →
      mask_at mask a
      = bool_to_int8 <$> legal_move (getCanonicalForm n b p) (decode n 1 a).
Proof.
  intros Hn Hb.
  pose proof (canonical_shape n b p Hb) as Hc.
  set (c := getCanonicalForm n b p) in *.
  destruct (getValidMoves_regions n Hn b p Hb)
    as (f1 & f2 & f3 & f4 & Hmask & L1 & L2 & L3 & L4 & R1 & R2 & R3 & R4).
  fold c in R1, R2, R3, R4.
  pose proof (half_pos n Hn) as Hh. pose proof (half_double n Hn) as Hd.
  destruct Hn as [H4 Hev].
  set (N := Z.to_nat n) in *. set (H := Z.to_nat (n `div` 2)) in *.
  assert (HwN : Z.to_nat (n - 1) = (N - 1)%nat) by lia.
  assert (HQ : Z.of_nat (length f1) = (n - 1) * (n - 1)).
  { rewrite L1, Nat2Z.inj_mul. lia. }
  assert (HP : Z.of_nat (length f2) = (n - 1) * (n `div` 2)).
  { rewrite L2, Nat2Z.inj_mul. lia. }
  assert (HP3 : length f3 = length f2) by lia.
  assert (HQ4 : length f4 = length f1) by lia.
  assert (HA : getActionSize n
               = 2 * ((n - 1) * (n - 1)) + 2 * ((n - 1) * (n `div` 2))).
  { rewrite (action_size_split n); [lia|done]. }
  eexists. split; [exact Hmask|]. split.
  { rewrite length_fmap, !length_app. lia. }
  intros a Ha. unfold mask_at.
  rewrite np_index_in_range by (rewrite length_fmap, !length_app; lia).
  cbn [mbind option_bind]. rewrite list_lookup_fmap. f_equal.
  destruct (action_regions n (conj H4 Hev) a Ha)
    as [(i & j & Hi & Hj & ->)|[(i & j & Hi & Hj & ->)|
        [(i & j & Hi & Hj & ->)|(i & j & Hi & Hj & ->)]]].
  - rewrite decode_region1 by done.
    rewrite (legal_diag_move n) by (done || lia).
    rewrite to_nat_grid, HwN by lia.
    rewrite lookup_app_l by (rewrite L1; apply grid_index_lt; lia).
    rewrite R1 by lia. do 2 f_equal; lia.
  - rewrite decode_region2 by done.
    rewrite (legal_straight_move n) by (done || lia).
    rewrite <- HQ, <- Z.add_assoc.
    rewrite to_nat_offset by (apply grid_index_nonneg; lia).
    rewrite to_nat_grid by lia. fold H.
    rewrite lookup_app_plus, lookup_app_l by (rewrite L2; apply grid_index_lt; lia).
    rewrite R2 by lia. do 2 f_equal; lia.
  - rewrite decode_region3 by done.
    rewrite (legal_straight_move n) by (done || lia).
    rewrite <- HQ, <- HP, <- !Z.add_assoc.
    rewrite (to_nat_offset (length f1)) by (pose proof (grid_index_nonneg i j (n `div` 2)); lia).
    rewrite (to_nat_offset (length f2)) by (apply grid_index_nonneg; lia).
    rewrite to_nat_grid by lia. fold H.
    rewrite !lookup_app_plus, lookup_app_l by (rewrite L3; apply grid_index_lt; lia).
    rewrite R3 by lia. unfold legal_straight.
    replace (Z.to_nat (n - 1 - i)) with (N - 1 - Z.to_nat i)%nat by lia.
    replace (Z.to_nat (n - 2 - i)) with (N - 2 - Z.to_nat i)%nat by lia.
    replace (Z.to_nat (n `div` 2 + j)) with (H + Z.to_nat j)%nat by lia.
    done.
  - rewrite decode_region4 by done.
    rewrite (legal_diag_move n) by (done || lia).
    rewrite <- HQ, <- HP, <- !Z.add_assoc.
    rewrite (to_nat_offset (length f1)) by (pose proof (grid_index_nonneg i j (n - 1)); lia).
    rewrite (to_nat_offset (length f2)) by (pose proof (grid_index_nonneg i j (n - 1)); lia).
    rewrite (to_nat_offset (length f2)) by (apply grid_index_nonneg; lia).
    rewrite to_nat_grid, HwN by lia.
    rewrite !lookup_app_plus. rewrite <- HP3, lookup_app_plus.
    rewrite R4 by lia. unfold legal_diag.
    replace (Z.to_nat (n - 1 - i)) with (N - 1 - Z.to_nat i)%nat by lia.
    replace (Z.to_nat (n - 2 - i)) with (N - 2 - Z.to_nat i)%nat by lia.
    replace (Z.to_nat (1 + j)) with (1 + Z.to_nat j)%nat by lia.
    done.
Qed.

(** ** Assignment into an array *)

Lemma setitem_spec n b r c v :
  shape_ok n b → 0 ≤ r < n → 0 ≤ c < n → -128 ≤ v ≤ 127 →
  ∃ b', setitem b r c v = Some b' ∧ shape_ok n b' ∧
    ∀ i j, cell b' i j =
           if decide (i = Z.to_nat r ∧ j = Z.to_nat c) then Some v
           else cell b i j.
Proof.
  intros Hb Hr Hc Hv. unfold setitem.
  rewrite np_index_in_range by (destruct Hb; lia). cbn.
  destruct (lookup_lt_is_Some_2 b (Z.to_nat r)) as [row E];
    [destruct Hb; lia|].
  rewrite E. cbn.
  destruct (is_mat_row _ _ _ _ _ Hb E) as [Hlen Hlt].
  rewrite np_index_in_range by lia. cbn.
  unfold to_int8. rewrite decide_True by done. cbn.
  eexists. split; [done|]. split.
  - destruct Hb as [Hl Hf]. split.
    + by rewrite length_insert.
    + apply Forall_insert; [done|]. by rewrite length_insert.
  - intros i j. unfold cell.
    destruct (decide (i = Z.to_nat r)) as [->|Hne].
    + rewrite list_lookup_insert_eq by (destruct Hb; lia). rewrite E. cbn.
      destruct (decide (j = Z.to_nat c)) as [->|Hne].
      * rewrite decide_True by done.
        apply list_lookup_insert_eq. lia.
      * rewrite decide_False by tauto.
        by apply list_lookup_insert_ne.
    + rewrite decide_False by tauto.
      by rewrite list_lookup_insert_ne.
Qed.

(** ** The transition, read off the store *)

Lemma getNextState_run n (s : gmap nat board) l b p a :
  s !! l = Some b →
  getNextState n l p a s =
    b' ← next_board n b p a;
    Some ((fresh (dom s), - p), <[fresh (dom s) := b']> s).
Proof.
  intros Hl. unfold getNextState, next_board, bind, np_copy, store_setitem, ret.
  rewrite Hl. cbn. rewrite lookup_insert_eq. cbn.
  destruct (setitem b _ _ 0) as [b1|]; [|done]. cbn.
  rewrite lookup_insert_eq. cbn.
  destruct (setitem b1 _ _ p) as [b2|]; [|done]. cbn.
  by rewrite !insert_insert_eq.
Qed.

Lemma fresh_unallocated (s : gmap nat board) : s !! fresh (dom s) = None.
Proof. apply not_elem_of_dom, is_fresh. Qed.

Lemma next_board_spec n b p a :
  size_ok n → shape_ok n b → -128 ≤ p ≤ 127 → 0 ≤ a < getActionSize n →
  let m := decode n p a in
  ∃ b', next_board n b p a = Some b' ∧ shape_ok n b' ∧
    ∀ i j, cell b' i j =
       if decide (i = Z.to_nat (dest_row m) ∧ j = Z.to_nat (dest_col m))
       then Some p
       else if decide (i = Z.to_nat (src_row m) ∧ j = Z.to_nat (src_col m))
       then Some 0
       else cell b i j.
Proof.
  intros Hn Hb Hp Ha m.
  destruct (decode_range n Hn p a Ha) as (Hsr & Hsc & Hdr & Hdc). fold m in Hsr, Hsc, Hdr, Hdc.
  unfold next_board. fold m.
  destruct (setitem_spec n b (src_row m) (src_col m) 0 Hb Hsr Hsc)
    as (b1 & -> & Hb1 & C1); [lia|]. cbn.
  destruct (setitem_spec n b1 (dest_row m) (dest_col m) p Hb1 Hdr Hdc Hp)
    as (b2 & -> & Hb2 & C2).
  exists b2. split; [done|]. split; [done|].
  intros i j. rewrite C2. case_decide; [done|]. apply C1.
Qed.

(** ** Rows and cells *)

Lemma getrow_spec n b r :
  shape_ok n b → 0 ≤ r < n →
  ∃ row, getrow b r = Some row ∧
    ∀ x, x ∈ row ↔ ∃ c, 0 ≤ c < n ∧ getitem b r c = Some x.
Proof.
  intros Hb Hr. unfold getitem, getrow.
  rewrite np_index_in_range by (destruct Hb; lia). cbn.
  destruct (lookup_lt_is_Some_2 b (Z.to_nat r)) as [row E];
    [destruct Hb; lia|].
  rewrite E. exists row. split; [done|]. cbn.
  destruct (is_mat_row _ _ _ _ _ Hb E) as [Hlen _].
  intros x. rewrite list_elem_of_lookup. split.
  - intros [j Hj]. pose proof (lookup_lt_Some _ _ _ Hj) as Hlt.
    exists (Z.of_nat j). split; [lia|].
    rewrite np_index_in_range by lia. cbn. by rewrite Nat2Z.id.
  - intros (c & Hc & Hx). rewrite np_index_in_range in Hx by lia.
    cbn in Hx. eauto.
Qed.

Lemma cells_ok_getitem n b r c x :
  shape_ok n b → cells_ok b → 0 ≤ r < n → 0 ≤ c < n →
  getitem b r c = Some x → x = -1 ∨ x = 0 ∨ x = 1.
Proof.
  intros Hb Hcells Hr Hc Hx. rewrite (getitem_cell n) in Hx by done.
  unfold cell in Hx.
  destruct (b !! Z.to_nat r) as [row|] eqn:E; [|done]. cbn in Hx.
  unfold cells_ok in Hcells. rewrite Forall_lookup in Hcells.
  specialize (Hcells _ _ E). rewrite Forall_lookup in Hcells. eauto.
Qed.

Lemma canonical_getitem n b p r c :
  shape_ok n b → 0 ≤ r < n → 0 ≤ c < n →
  getitem (getCanonicalForm n b p) r c =
    if decide (0 < p) then getitem b r c
    else (λ x, wrap8 (x * p)) <$> getitem b (n - r - 1) c.
Proof.
  intros Hb Hr Hc.
  rewrite (getitem_cell n) by (done || by apply canonical_shape).
  rewrite (canonical_cell n) by (done || lia).
  case_decide.
  - by rewrite (getitem_cell n).
  - rewrite (getitem_cell n) by (done || lia). do 2 f_equal. lia.
Qed.

(** Direction and width of a decoded step. *)
Lemma step_facts n p a :
  size_ok n → player_ok p → 0 ≤ a < getActionSize n →
  let m := decode n p a in
  (p = 1 → dest_row m = src_row m - 1) ∧
  (p = -1 → dest_row m = src_row m + 1) ∧
  -1 ≤ dest_col m - src_col m ≤ 1.
Proof.
  intros Hn Hp Ha m.
  destruct (decode_step n Hn p a Ha) as [Hrow Hcol]. fold m in Hrow, Hcol.
  case_decide; destruct Hp; repeat split; lia.
Qed.

(** * The claims *)

(** ** C10: every decoded move is a single step *)

(** C10.  For an even [n >= 4], a player in {+1, -1} and any action in
    range, legal or not, the decoded destination row is the source row
    minus one for player +1 and plus one for player -1, the columns differ
    by at most one, and source and destination are different cells. *)
Theorem C10_decode_single_step n p a :
  size_ok n → player_ok p → 0 ≤ a < getActionSize n →
  let m := decode n p a in
  (p = 1 → dest_row m = src_row m - 1) ∧
  (p = -1 → dest_row m = src_row m + 1) ∧
  -1 ≤ dest_col m - src_col m ≤ 1 ∧
  (src_row m, src_col m) ≠ (dest_row m, dest_col m).
Proof.
  intros Hn Hp Ha m.
  destruct (decode_step n Hn p a Ha) as [Hrow Hcol]. fold m in Hrow, Hcol.
  case_decide; destruct Hp; repeat split; try lia; intros [=]; lia.
Qed.

Lemma C10_decode_single_step_witness :
  let m := decode 4 (-1) 17 in
  (-1 = 1 → dest_row m = src_row m - 1) ∧
  (-1 = -1 → dest_row m = src_row m + 1) ∧
  -1 ≤ dest_col m - src_col m ≤ 1 ∧
  (src_row m, src_col m) ≠ (dest_row m, dest_col m).
Proof.
  apply (C10_decode_single_step 4 (-1) 17).
  - vm_compute. split; [discriminate|reflexivity].
  - right. reflexivity.
  - vm_compute. split; [discriminate|reflexivity].
Defined.

(** ** C2: the action numbering is a horizontal-mirror involution *)

(** C2.  For an even [n >= 4] and any action [a] in range, the moves
    decoded for [a] and for [actionSize - 1 - a], for the same player,
    have the same rows, and each column [c] of the one is the column
    [n - 1 - c] of the other. *)
Theorem C2_decode_mirror n p a :
  size_ok n → 0 ≤ a < getActionSize n →
  let m := decode n p a in
  let m' := decode n p (getActionSize n - 1 - a) in
  src_row m' = src_row m ∧ dest_row m' = dest_row m ∧
  src_col m' = n - 1 - src_col m ∧ dest_col m' = n - 1 - dest_col m.
Proof.
  intros Hn Ha m m'. subst m m'.
  rewrite (decode_mirror n Hn p a Ha). unfold mirror_cols. cbn.
  repeat split; lia.
Qed.

Lemma C2_decode_mirror_witness :
  let m := decode 6 1 30 in
  let m' := decode 6 1 (getActionSize 6 - 1 - 30) in
  src_row m' = src_row m ∧ dest_row m' = dest_row m ∧
  src_col m' = 6 - 1 - src_col m ∧ dest_col m' = 6 - 1 - dest_col m.
Proof.
  apply (C2_decode_mirror 6 1 30).
  - vm_compute. split; [discriminate|reflexivity].
  - vm_compute. split; [discriminate|reflexivity].
Defined.

(** ** C5: terminal detection *)

(** C5.  On an [n]-by-[n] board, [getGameEnded] returns [player] when some
    cell of row 0 holds +1; otherwise [-player] when some cell of row
    [n - 1] holds -1; otherwise 0.  When both rows are reached, the first
    case applies and [player] is returned. *)
Theorem C5_game_ended n b p :
  0 < n → shape_ok n b →
  (reached b n 0 1 → getGameEnded n b p = Some p) ∧
  (¬ reached b n 0 1 → reached b n (n - 1) (-1) →
     getGameEnded n b p = Some (- p)) ∧
  (¬ reached b n 0 1 → ¬ reached b n (n - 1) (-1) →
     getGameEnded n b p = Some 0) ∧
  (reached b n 0 1 → reached b n (n - 1) (-1) →
     getGameEnded n b p = Some p).
Proof.
  intros Hpos Hb. unfold getGameEnded, reached.
  destruct (getrow_spec n b 0 Hb) as (row0 & -> & H0); [lia|].
  destruct (getrow_spec n b (n - 1) Hb) as (rowl & -> & Hl); [lia|].
  cbn. rewrite <- H0, <- Hl.
  repeat split; intros; repeat case_bool_decide; done.
Qed.

Lemma C5_game_ended_witness :
  let b := [[0; 1; 0; 0]; [0; 0; 0; 0]; [0; 0; 0; 0]; [-1; 0; 0; 1]] in
  (reached b 4 0 1 → getGameEnded 4 b (-1) = Some (-1)) ∧
  (¬ reached b 4 0 1 → reached b 4 (4 - 1) (-1) →
     getGameEnded 4 b (-1) = Some (- -1)) ∧
  (¬ reached b 4 0 1 → ¬ reached b 4 (4 - 1) (-1) →
     getGameEnded 4 b (-1) = Some 0) ∧
  (reached b 4 0 1 → reached b 4 (4 - 1) (-1) →
     getGameEnded 4 b (-1) = Some (-1)).
Proof.
  apply (C5_game_ended 4
           [[0; 1; 0; 0]; [0; 0; 0; 0]; [0; 0; 0; 0]; [-1; 0; 0; 1]] (-1)).
  - reflexivity.
  - by_compute.
Defined.

(** ** C8: symmetries *)

Lemma fliplr_getitem n b r c :
  shape_ok n b → 0 ≤ r < n → 0 ≤ c < n →
  getitem (fliplr b) r c = getitem b r (n - 1 - c).
Proof.
  intros Hb Hr Hc.
  rewrite !(getitem_cell n) by (done || lia || by apply is_mat_fliplr).
  rewrite (cell_fliplr (Z.to_nat n) (Z.to_nat n)) by (done || lia).
  f_equal. lia.
Qed.

(** C8.  [getSymmetries] returns exactly two pairs.  The first is the
    board and the policy as given.  The second holds the board mirrored
    left to right (cell [(r, c)] is the given cell [(r, n - 1 - c)]) and
    the policy reversed: entry [i] is the given entry
    [actionSize - 1 - i]. *)
Theorem C8_symmetries {A} n (b : board) (pi : list A) :
  shape_ok n b → Z.of_nat (length pi) = getActionSize n →
  ∃ b' pi',
    getSymmetries b pi = [(b, pi); (b', pi')] ∧
    b' = fliplr b ∧ shape_ok n b' ∧
    (∀ r c, 0 ≤ r < n → 0 ≤ c < n →
       getitem b' r c = getitem b r (n - 1 - c)) ∧
    length pi' = length pi ∧
    (∀ i, 0 ≤ i < getActionSize n →
       pi' !! Z.to_nat i = pi !! Z.to_nat (getActionSize n - 1 - i)).
Proof.
  intros Hb Hlen. exists (fliplr b), (reverse pi).
  split; [done|]. split; [done|]. split; [by apply is_mat_fliplr|].
  split; [intros r c Hr Hc; by apply (fliplr_getitem n)|].
  split; [apply length_reverse|].
  intros i Hi. rewrite reverse_lookup by lia. f_equal. lia.
Qed.

Lemma C8_symmetries_witness :
  ∃ b' pi',
    getSymmetries [[0; 0; 0; 1]; [0; 0; 0; 0]; [0; 0; 0; 0]; [-1; 0; 0; 0]]
                  (seq 0 30)
    = [([[0; 0; 0; 1]; [0; 0; 0; 0]; [0; 0; 0; 0]; [-1; 0; 0; 0]], seq 0 30);
       (b', pi')] ∧
    b' = fliplr [[0; 0; 0; 1]; [0; 0; 0; 0]; [0; 0; 0; 0]; [-1; 0; 0; 0]] ∧
    shape_ok 4 b' ∧
    (∀ r c, 0 ≤ r < 4 → 0 ≤ c < 4 →
       getitem b' r c
       = getitem [[0; 0; 0; 1]; [0; 0; 0; 0]; [0; 0; 0; 0]; [-1; 0; 0; 0]]
           r (4 - 1 - c)) ∧
    length pi' = length (seq 0 30) ∧
    (∀ i, 0 ≤ i < getActionSize 4 →
       pi' !! Z.to_nat i = seq 0 30 !! Z.to_nat (getActionSize 4 - 1 - i)).
Proof.
  apply (C8_symmetries 4).
  - by_compute.
  - reflexivity.
Defined.

(** ** C9: the initial position *)

Lemma row_iadd_spec r c (b : board) i d :
  is_mat r c b → 0 ≤ i < Z.of_nat r →
  ∃ b', row_iadd b i d = Some b' ∧ is_mat r c b' ∧
    ∀ k j, cell b' k j =
           if decide (k = Z.to_nat i)
           then (λ x, wrap8 (x + d)) <$> cell b k j
           else cell b k j.
Proof.
  intros Hb Hi. unfold row_iadd.
  rewrite np_index_in_range by (destruct Hb; lia). cbn.
  destruct (lookup_lt_is_Some_2 b (Z.to_nat i)) as [row E];
    [destruct Hb; lia|].
  rewrite E. cbn. eexists. split; [done|].
  destruct (is_mat_row _ _ _ _ _ Hb E) as [Hlen Hlt]. split.
  - destruct Hb as [Hl Hf]. split.
    + by rewrite length_insert.
    + apply Forall_insert; [done|]. by rewrite length_fmap.
  - intros k j. unfold cell. case_decide as Hk.
    + subst k. rewrite list_lookup_insert_eq by (destruct Hb; lia).
      rewrite E. cbn. apply list_lookup_fmap.
    + by rewrite list_lookup_insert_ne.
Qed.

Lemma zeros_cell (r c : nat) i j :
  (i < r)%nat → (j < c)%nat →
  cell (replicate r (replicate c 0)) i j = Some 0.
Proof.
  intros Hi Hj. unfold cell. rewrite lookup_replicate_2 by done. cbn.
  by apply lookup_replicate_2.
Qed.

Lemma zeros_mat (r c : nat) : is_mat r c (replicate r (replicate c 0)).
Proof.
  split; [apply length_replicate|].
  apply Forall_replicate, length_replicate.
Qed.

(** C9.  For an even [n >= 4], [getInitBoard] returns an [n]-by-[n] board
    whose rows 0 and 1 hold -1 everywhere, whose rows [n - 2] and [n - 1]
    hold +1 everywhere, and whose other cells are 0. *)
Theorem C9_init_board n :
  size_ok n →
  ∃ b, getInitBoard n = Some b ∧ shape_ok n b ∧
    ∀ r c, 0 ≤ r < n → 0 ≤ c < n →
      getitem b r c =
        Some (if decide (r < 2) then -1
              else if decide (n - 2 ≤ r) then 1 else 0).
Proof.
  intros [H4 Hev]. unfold getInitBoard, np_zeros.
  rewrite decide_True by lia. cbn [mbind option_bind].
  pose proof (zeros_mat (Z.to_nat n) (Z.to_nat n)) as M0.
  destruct (row_iadd_spec _ _ _ 0 (-1) M0) as (b1 & -> & M1 & C1); [lia|].
  cbn [mbind option_bind].
  destruct (row_iadd_spec _ _ _ 1 (-1) M1) as (b2 & -> & M2 & C2); [lia|].
  cbn [mbind option_bind].
  destruct (row_iadd_spec _ _ _ (n - 1) 1 M2) as (b3 & -> & M3 & C3); [lia|].
  cbn [mbind option_bind].
  destruct (row_iadd_spec _ _ _ (n - 2) 1 M3) as (b4 & -> & M4 & C4); [lia|].
  exists b4. split; [done|]. split; [done|].
  intros r c Hr Hc. rewrite (getitem_cell n) by done.
  rewrite C4, C3, C2, C1, zeros_cell by lia.
  repeat case_decide; try lia; reflexivity.
Qed.

Lemma C9_init_board_witness :
  ∃ b, getInitBoard 6 = Some b ∧ shape_ok 6 b ∧
    ∀ r c, 0 ≤ r < 6 → 0 ≤ c < 6 →
      getitem b r c =
        Some (if decide (r < 2) then -1
              else if decide (6 - 2 ≤ r) then 1 else 0).
Proof.
  apply (C9_init_board 6).
  vm_compute. split; [discriminate|reflexivity].
Defined.

(** ** C3: the transition commutes with the left-right mirror *)

Lemma player_int8 p : player_ok p → -128 ≤ p ≤ 127.
Proof. intros [->| ->]; lia. Qed.

Lemma next_board_fliplr n b p a :
  size_ok n → shape_ok n b → -128 ≤ p ≤ 127 → 0 ≤ a < getActionSize n →
  next_board n (fliplr b) p (getActionSize n - 1 - a)
  = fliplr <$> next_board n b p a.
Proof.
  intros Hn Hb Hp Ha.
  assert (Hb' : shape_ok n (fliplr b)) by (by apply is_mat_fliplr).
  assert (Ha' : 0 ≤ getActionSize n - 1 - a < getActionSize n) by lia.
  destruct (next_board_spec n b p a Hn Hb Hp Ha) as (b1 & -> & M1 & C1).
  destruct (next_board_spec n (fliplr b) p _ Hn Hb' Hp Ha')
    as (b2 & -> & M2 & C2).
  cbn. f_equal.
  destruct (decode_range n Hn p a Ha) as (Hsr & Hsc & Hdr & Hdc).
  rewrite (decode_mirror n Hn p a Ha) in C2.
  unfold mirror_cols in C2. cbn [src_row src_col dest_row dest_col] in C2.
  apply (is_mat_ext (Z.to_nat n) (Z.to_nat n)); [done|by apply is_mat_fliplr|].
  intros i j Hi Hj.
  rewrite (cell_fliplr (Z.to_nat n) (Z.to_nat n)) by done.
  rewrite C2, C1.
  rewrite (cell_fliplr (Z.to_nat n) (Z.to_nat n)) by done.
  replace (Z.to_nat (n - dest_col (decode n p a) - 1))
    with (Z.to_nat n - 1 - Z.to_nat (dest_col (decode n p a)))%nat by lia.
  replace (Z.to_nat (n - src_col (decode n p a) - 1))
    with (Z.to_nat n - 1 - Z.to_nat (src_col (decode n p a)))%nat by lia.
  assert (Hdc' : (Z.to_nat (dest_col (decode n p a)) < Z.to_nat n)%nat) by lia.
  assert (Hsc' : (Z.to_nat (src_col (decode n p a)) < Z.to_nat n)%nat) by lia.
  clear - Hi Hj Hdc' Hsc'.
  generalize dependent (Z.to_nat (dest_col (decode n p a))).
  generalize dependent (Z.to_nat (src_col (decode n p a))).
  generalize (Z.to_nat (dest_row (decode n p a))).
  generalize (Z.to_nat (src_row (decode n p a))).
  generalize dependent (Z.to_nat n).
  intros N Hi Hj sr dr sc Hsc dc Hdc.
  repeat case_decide; try done; lia.
Qed.

(** C3.  Let [getNextState], run on a board [b] for player [p] and action
    [a], return a board [b'] and a next player [q].  Then [q = -p], and
    run on the mirrored board [fliplr b] for the same player and the
    action [actionSize - 1 - a], it returns the mirrored board
    [fliplr b'] and the same next player. *)
Theorem C3_next_state_mirror n (s1 s2 : gmap nat board) l1 l2 b p a l1' q s1' b' :
  size_ok n → shape_ok n b → player_ok p → 0 ≤ a < getActionSize n →
  s1 !! l1 = Some b → s2 !! l2 = Some (fliplr b) →
  getNextState n l1 p a s1 = Some ((l1', q), s1') →
  s1' !! l1' = Some b' →
  q = - p ∧
  ∃ l2' s2',
    getNextState n l2 p (getActionSize n - 1 - a) s2 = Some ((l2', - p), s2') ∧
    s2' !! l2' = Some (fliplr b').
Proof.
  intros Hn Hb Hp Ha H1 H2 Hrun Hres.
  rewrite (getNextState_run n s1 l1 b p a H1) in Hrun.
  rewrite (getNextState_run n s2 l2 (fliplr b) p _ H2).
  rewrite (next_board_fliplr n b p a Hn Hb (player_int8 p Hp) Ha).
  destruct (next_board n b p a) as [b1|]; [|done]. cbn in Hrun |- *.
  injection Hrun as <- <- <-. rewrite lookup_insert_eq in Hres.
  injection Hres as <-. split; [done|].
  do 2 eexists. split; [done|]. by rewrite lookup_insert_eq.
Qed.

Lemma C3_next_state_mirror_witness :
  let b := [[-1; -1; -1; -1]; [0; 0; 0; 0]; [0; 1; 0; 0]; [1; 0; 1; 1]] in
  let b' := [[-1; -1; -1; -1]; [0; 0; 1; 0]; [0; 0; 0; 0]; [1; 0; 1; 1]] in
  - 1 = - 1 ∧
  ∃ l2' s2',
    getNextState 4 0%nat 1 (getActionSize 4 - 1 - 4) {[ 0%nat := fliplr b ]}
    = Some ((l2', - 1), s2') ∧
    s2' !! l2' = Some (fliplr b').
Proof.
  intros b b'.
  apply (C3_next_state_mirror 4 {[ 0%nat := b ]} {[ 0%nat := fliplr b ]}
           0%nat 0%nat b 1 4 1%nat (-1) (<[ 1%nat := b' ]> {[ 0%nat := b ]}) b').
  - vm_compute. split; [discriminate|reflexivity].
  - by_compute.
  - left. reflexivity.
  - vm_compute. split; [discriminate|reflexivity].
  - reflexivity.
  - reflexivity.
  - vm_compute. reflexivity.
  - reflexivity.
Defined.

(** ** Legal actions on the board itself *)

(** What a set bit of the mask says about the cells of the board at the
    coordinates decoded for the moving player. *)
Lemma legal_action_cells n b p a mask :
  size_ok n → shape_ok n b → player_ok p → 0 ≤ a < getActionSize n →
  getValidMoves n b p = Some mask → mask_at mask a = Some 1 →
  let m := decode n p a in
  ∃ x y,
    getitem b (src_row m) (src_col m) = Some x ∧
    getitem b (dest_row m) (dest_col m) = Some y ∧
    0 < canonical_value p x ∧ canonical_value p y ≤ 0 ∧
    (dest_col m = src_col m → canonical_value p y = 0).
Proof.
  intros Hn Hb Hp Ha Hmask Hbit m.
  destruct (valid_mask_decode n b p Hn Hb) as (mask' & Hmask' & _ & Hdec).
  rewrite Hmask in Hmask'. injection Hmask' as <-.
  rewrite (Hdec a Ha) in Hbit.
  pose proof (decode_range n Hn 1 a Ha) as (Hsr & Hsc & Hdr & Hdc).
  assert (Hm : m = (if decide (p < 0) then mirror_rows n else id) (decode n 1 a)).
  { subst m. rewrite !(decode_unfold n). cbv zeta.
    rewrite (decide_False (P := 1 < 0)) by lia. done. }
  unfold legal_move in Hbit.
  rewrite !(canonical_getitem n) in Hbit by done.
  unfold canonical_value.
  assert (Hcells : ∃ x y,
    getitem b (src_row m) (src_col m) = Some x ∧
    getitem b (dest_row m) (dest_col m) = Some y ∧
    (dest_col m = src_col m ↔ dest_col (decode n 1 a) = src_col (decode n 1 a)) ∧
    (if decide (0 < p) then getitem b (src_row (decode n 1 a)) (src_col (decode n 1 a))
     else (λ x, wrap8 (x * p)) <$>
            getitem b (n - src_row (decode n 1 a) - 1) (src_col (decode n 1 a)))
    = Some (if decide (0 < p) then x else wrap8 (x * p)) ∧
    (if decide (0 < p) then getitem b (dest_row (decode n 1 a)) (dest_col (decode n 1 a))
     else (λ x, wrap8 (x * p)) <$>
            getitem b (n - dest_row (decode n 1 a) - 1) (dest_col (decode n 1 a)))
    = Some (if decide (0 < p) then y else wrap8 (y * p))).
  { rewrite Hm. destruct Hp as [-> | ->].
    - rewrite (decide_False (P := 1 < 0)) by lia.
      rewrite !(decide_True (P := 0 < 1)) by lia. cbn [id].
      destruct (getitem_is_Some n b _ _ Hb Hsr Hsc) as [x Hx].
      destruct (getitem_is_Some n b _ _ Hb Hdr Hdc) as [y Hy].
      exists x, y. by rewrite Hx, Hy.
    - rewrite (decide_True (P := -1 < 0)) by lia.
      rewrite !(decide_False (P := 0 < -1)) by lia.
      unfold mirror_rows. cbn [src_row src_col dest_row dest_col].
      destruct (getitem_is_Some n b (n - src_row (decode n 1 a) - 1)
                  (src_col (decode n 1 a)) Hb) as [x Hx]; [lia|lia|].
      destruct (getitem_is_Some n b (n - dest_row (decode n 1 a) - 1)
                  (dest_col (decode n 1 a)) Hb) as [y Hy]; [lia|lia|].
      exists x, y. by rewrite Hx, Hy. }
  destruct Hcells as (x & y & Hx & Hy & Hcol & Ex & Ey).
  rewrite Ex, Ey in Hbit. cbn [mbind option_bind fmap option_fmap option_map] in Hbit.
  exists x, y. split; [done|]. split; [done|].
  injection Hbit as Hbit. unfold bool_to_int8 in Hbit.
  destruct (bool_decide (0 < _) && _) eqn:E; [|done].
  apply andb_true_iff in E as [E1 E2].
  apply bool_decide_eq_true in E1. split; [done|].
  destruct (decide (dest_col (decode n 1 a) = src_col (decode n 1 a))) as [Hc|Hc];
    apply bool_decide_eq_true in E2.
  - rewrite E2. split; [lia|done].
  - split; [done|]. intros Hc'. by apply Hcol in Hc'.
Qed.

Lemma canonical_value_own p x :
  player_ok p → x = -1 ∨ x = 0 ∨ x = 1 → 0 < canonical_value p x → x = p.
Proof. by intros [-> | ->] [-> | [-> | ->]]; vm_compute. Qed.

Lemma canonical_value_empty p y :
  player_ok p → y = -1 ∨ y = 0 ∨ y = 1 → canonical_value p y = 0 → y = 0.
Proof. by intros [-> | ->] [-> | [-> | ->]]; vm_compute. Qed.

Lemma canonical_value_source p x :
  player_ok p → 0 < canonical_value p x → x ≠ 0.
Proof. by intros [-> | ->] Hx ->; vm_compute in Hx. Qed.

Lemma canonical_value_not_own p y :
  player_ok p → canonical_value p y ≤ 0 → y ≠ p.
Proof. intros [-> | ->] Hy ->; vm_compute in Hy; by apply Hy. Qed.

(** ** C1: what a legal action does *)

(** C1.  On an [n]-by-[n] board with cells in {-1, 0, +1}, for an even
    [n >= 4], a player [p] in {+1, -1} and an action whose bit is set in
    [getValidMoves]: the move decoded by [getNextState] starts on a cell
    holding a piece of [p], ends one row forward for [p] (row minus one
    for +1, plus one for -1) and at most one column aside, on a cell not
    holding a piece of [p]; a move that keeps its column ends on an empty
    cell. *)
Theorem C1_valid_move_shape n b p a mask :
  size_ok n → shape_ok n b → cells_ok b → player_ok p →
  0 ≤ a < getActionSize n →
  getValidMoves n b p = Some mask → mask_at mask a = Some 1 →
  let m := decode n p a in
  getitem b (src_row m) (src_col m) = Some p ∧
  (p = 1 → dest_row m = src_row m - 1) ∧
  (p = -1 → dest_row m = src_row m + 1) ∧
  -1 ≤ dest_col m - src_col m ≤ 1 ∧
  ∃ y, getitem b (dest_row m) (dest_col m) = Some y ∧ y ≠ p ∧
       (dest_col m = src_col m → y = 0).
Proof.
  intros Hn Hb Hcells Hp Ha Hmask Hbit m.
  destruct (legal_action_cells n b p a mask Hn Hb Hp Ha Hmask Hbit)
    as (x & y & Hx & Hy & Hsrc & Hdest & Hstraight).
  fold m in Hx, Hy, Hstraight.
  destruct (decode_range n Hn p a Ha) as (Hsr & Hsc & Hdr & Hdc).
  fold m in Hsr, Hsc, Hdr, Hdc.
  destruct (step_facts n p a Hn Hp Ha) as (Hup & Hdown & Hcol).
  fold m in Hup, Hdown, Hcol.
  pose proof (cells_ok_getitem n b _ _ x Hb Hcells Hsr Hsc Hx) as Vx.
  pose proof (cells_ok_getitem n b _ _ y Hb Hcells Hdr Hdc Hy) as Vy.
  split; [rewrite Hx; f_equal; by apply canonical_value_own|].
  split; [done|]. split; [done|]. split; [done|].
  exists y. split; [done|]. split; [by apply canonical_value_not_own|].
  intros Hc. apply (canonical_value_empty p); auto.
Qed.

Lemma C1_valid_move_shape_witness :
  let b := [[-1; -1; -1; -1]; [0; 0; 0; 0]; [0; 1; 0; 0]; [1; 0; 1; 1]] in
  let m := decode 4 1 4 in
  getitem b (src_row m) (src_col m) = Some 1 ∧
  (1 = 1 → dest_row m = src_row m - 1) ∧
  (1 = -1 → dest_row m = src_row m + 1) ∧
  -1 ≤ dest_col m - src_col m ≤ 1 ∧
  ∃ y, getitem b (dest_row m) (dest_col m) = Some y ∧ y ≠ 1 ∧
       (dest_col m = src_col m → y = 0).
Proof.
  intros b.
  apply (C1_valid_move_shape 4 b 1 4
           [0; 0; 0; 0; 1; 0; 0; 0; 1; 0; 0; 0; 1; 1; 0;
            1; 1; 0; 0; 0; 0; 0; 0; 1; 1; 0; 0; 0; 0; 0]).
  - vm_compute. split; [discriminate|reflexivity].
  - by_compute.
  - by_compute.
  - left. reflexivity.
  - vm_compute. split; [discriminate|reflexivity].
  - vm_compute. reflexivity.
  - vm_compute. reflexivity.
Defined.

(** ** C4: the frame of a legal transition *)

(** C4.  For a legal action, [getNextState] allocates a new array and
    leaves every array of the store, the argument included, as it was.
    The new board differs from the argument in exactly two cells: the
    decoded source, which held a non-zero value and now holds 0, and the
    decoded destination, which held a value other than [p] and now holds
    [p]; every other cell is unchanged. *)
Theorem C4_next_state_frame n (s : gmap nat board) l b p a mask :
  size_ok n → shape_ok n b → player_ok p → 0 ≤ a < getActionSize n →
  s !! l = Some b →
  getValidMoves n b p = Some mask → mask_at mask a = Some 1 →
  let m := decode n p a in
  ∃ l' s' b',
    getNextState n l p a s = Some ((l', - p), s') ∧
    s !! l' = None ∧ s' !! l' = Some b' ∧
    (∀ k, k ≠ l' → s' !! k = s !! k) ∧
    s' !! l = Some b ∧
    shape_ok n b' ∧
    getitem b' (src_row m) (src_col m) = Some 0 ∧
    getitem b (src_row m) (src_col m) ≠ Some 0 ∧
    getitem b' (dest_row m) (dest_col m) = Some p ∧
    getitem b (dest_row m) (dest_col m) ≠ Some p ∧
    (∀ r c, 0 ≤ r < n → 0 ≤ c < n →
       ¬ (r = src_row m ∧ c = src_col m) →
       ¬ (r = dest_row m ∧ c = dest_col m) →
       getitem b' r c = getitem b r c).
Proof.
  intros Hn Hb Hp Ha Hl Hmask Hbit m.
  destruct (legal_action_cells n b p a mask Hn Hb Hp Ha Hmask Hbit)
    as (x & y & Hx & Hy & Hsrc & Hdest & _).
  fold m in Hx, Hy.
  destruct (decode_range n Hn p a Ha) as (Hsr & Hsc & Hdr & Hdc).
  fold m in Hsr, Hsc, Hdr, Hdc.
  destruct (step_facts n p a Hn Hp Ha) as (Hup & Hdown & _).
  fold m in Hup, Hdown.
  assert (Hrows : src_row m ≠ dest_row m) by (destruct Hp; lia).
  destruct (next_board_spec n b p a Hn Hb (player_int8 p Hp) Ha)
    as (b' & Hnext & Hb' & Hcell).
  fold m in Hcell.
  pose proof (fresh_unallocated s) as Hfresh.
  exists (fresh (dom s)), (<[fresh (dom s) := b']> s), b'.
  split; [rewrite (getNextState_run n s l b p a Hl), Hnext; done|].
  split; [done|]. split; [apply lookup_insert_eq|].
  split; [intros k Hk; by apply lookup_insert_ne|].
  split; [rewrite lookup_insert_ne; [done|congruence]|].
  split; [done|].
  split.
  { rewrite (getitem_cell n), Hcell by done.
    rewrite decide_False by lia. by rewrite decide_True. }
  split.
  { rewrite Hx. intros [= ->]. by apply (canonical_value_source p 0). }
  split.
  { rewrite (getitem_cell n), Hcell by done. by rewrite decide_True. }
  split.
  { rewrite Hy. intros [= ->]. by apply (canonical_value_not_own p p). }
  intros r c Hr Hc Hns Hnd.
  rewrite !(getitem_cell n), Hcell by done.
  rewrite decide_False by lia. by rewrite decide_False by lia.
Qed.

Lemma C4_next_state_frame_witness :
  let b := [[-1; -1; -1; -1]; [0; 0; 0; 0]; [0; 1; 0; 0]; [1; 0; 1; 1]] in
  let s : gmap nat board := {[ 5%nat := b ]} in
  let m := decode 4 1 4 in
  ∃ l' s' b',
    getNextState 4 5%nat 1 4 s = Some ((l', - 1), s') ∧
    s !! l' = None ∧ s' !! l' = Some b' ∧
    (∀ k, k ≠ l' → s' !! k = s !! k) ∧
    s' !! 5%nat = Some b ∧
    shape_ok 4 b' ∧
    getitem b' (src_row m) (src_col m) = Some 0 ∧
    getitem b (src_row m) (src_col m) ≠ Some 0 ∧
    getitem b' (dest_row m) (dest_col m) = Some 1 ∧
    getitem b (dest_row m) (dest_col m) ≠ Some 1 ∧
    (∀ r c, 0 ≤ r < 4 → 0 ≤ c < 4 →
       ¬ (r = src_row m ∧ c = src_col m) →
       ¬ (r = dest_row m ∧ c = dest_col m) →
       getitem b' r c = getitem b r c).
Proof.
  intros b s.
  apply (C4_next_state_frame 4 s 5%nat b 1 4
           [0; 0; 0; 0; 1; 0; 0; 0; 1; 0; 0; 0; 1; 1; 0;
            1; 1; 0; 0; 0; 0; 0; 0; 1; 1; 0; 0; 0; 0; 0]).
  - vm_compute. split; [discriminate|reflexivity].
  - by_compute.
  - left. reflexivity.
  - vm_compute. split; [discriminate|reflexivity].
  - reflexivity.
  - vm_compute. reflexivity.
  - vm_compute. reflexivity.
Defined.

(** ** C6: totality on well-formed inputs *)

Lemma cell_str_total x : x = -1 ∨ x = 0 ∨ x = 1 → is_Some (cell_str x).
Proof. intros [-> | [-> | ->]]; vm_compute; eauto. Qed.

Lemma stringRepresentation_total b :
  cells_ok b → is_Some (stringRepresentation b).
Proof.
  intros Hcells. unfold stringRepresentation.
  destruct (mapM_is_Some_2 cell_str (flatten b)) as [cs Hcs].
  - unfold flatten. apply Forall_join.
    eapply Forall_impl; [exact Hcells|]. intros row Hrow.
    eapply Forall_impl; [exact Hrow|]. intros x Hx. by apply cell_str_total.
  - rewrite Hcs. cbn. eauto.
Qed.

(** C6.  For an even [n >= 4], an [n]-by-[n] board with cells in
    {-1, 0, +1}, a player in {+1, -1} and any action in range, legal or
    not: the decoded coordinates all lie in [0, n); [getNextState] returns
    a new [n]-by-[n] board and the player [-p]; [getValidMoves] returns a
    mask of length [actionSize]; [getGameEnded], [getCanonicalForm],
    [getSymmetries] and [stringRepresentation] return as well. *)
Theorem C6_total {A} n (s : gmap nat board) l b p a (pi : list A) :
  size_ok n → shape_ok n b → cells_ok b → player_ok p →
  0 ≤ a < getActionSize n → s !! l = Some b →
  let m := decode n p a in
  (0 ≤ src_row m < n ∧ 0 ≤ src_col m < n ∧
   0 ≤ dest_row m < n ∧ 0 ≤ dest_col m < n) ∧
  (∃ l' s' b', getNextState n l p a s = Some ((l', - p), s') ∧
               s' !! l' = Some b' ∧ shape_ok n b') ∧
  (∃ mask, getValidMoves n b p = Some mask ∧
           Z.of_nat (length mask) = getActionSize n) ∧
  is_Some (getGameEnded n b p) ∧
  shape_ok n (getCanonicalForm n b p) ∧
  length (getSymmetries b pi) = 2%nat ∧
  is_Some (stringRepresentation b).
Proof.
  intros Hn Hb Hcells Hp Ha Hl m.
  split; [apply (decode_range n Hn p a Ha)|].
  split.
  { destruct (next_board_spec n b p a Hn Hb (player_int8 p Hp) Ha)
      as (b' & Hnext & Hb' & _).
    exists (fresh (dom s)), (<[fresh (dom s) := b']> s), b'.
    rewrite (getNextState_run n s l b p a Hl), Hnext.
    split; [done|]. split; [apply lookup_insert_eq|done]. }
  split.
  { destruct (valid_mask_decode n b p Hn Hb) as (mask & Hmask & Hlen & _).
    eauto. }
  split.
  { unfold getGameEnded. destruct Hn as [H4 _].
    destruct (getrow_spec n b 0 Hb) as (row0 & -> & _); [lia|].
    destruct (getrow_spec n b (n - 1) Hb) as (rowl & -> & _); [lia|].
    cbn. eauto. }
  split; [by apply canonical_shape|].
  split; [done|].
  by apply stringRepresentation_total.
Qed.

Lemma C6_total_witness :
  let b := [[-1; -1; -1; -1]; [0; 0; 0; 0]; [0; 1; 0; 0]; [1; 0; 1; 1]] in
  let s : gmap nat board := {[ 0%nat := b ]} in
  let m := decode 4 (-1) 29 in
  (0 ≤ src_row m < 4 ∧ 0 ≤ src_col m < 4 ∧
   0 ≤ dest_row m < 4 ∧ 0 ≤ dest_col m < 4) ∧
  (∃ l' s' b', getNextState 4 0%nat (-1) 29 s = Some ((l', - -1), s') ∧
               s' !! l' = Some b' ∧ shape_ok 4 b') ∧
  (∃ mask, getValidMoves 4 b (-1) = Some mask ∧
           Z.of_nat (length mask) = getActionSize 4) ∧
  is_Some (getGameEnded 4 b (-1)) ∧
  shape_ok 4 (getCanonicalForm 4 b (-1)) ∧
  length (getSymmetries b (seq 0 30)) = 2%nat ∧
  is_Some (stringRepresentation b).
Proof.
  intros b s.
  apply (C6_total 4 s 0%nat b (-1) 29 (seq 0 30)).
  - vm_compute. split; [discriminate|reflexivity].
  - by_compute.
  - by_compute.
  - right. reflexivity.
  - vm_compute. split; [discriminate|reflexivity].
  - reflexivity.
Defined.

(** ** C7: the opening position on the 8-by-8 board *)

(** A decidable property of actions, checked on the whole action space. *)
Lemma forall_actions (P : Z → Prop) `{!∀ a, Decision (P a)} k :
  bool_decide (Forall P (seqZ 0 k)) = true → ∀ a, 0 ≤ a < k → P a.
Proof.
  intros Hall a Ha. apply bool_decide_eq_true in Hall.
  rewrite Forall_seqZ in Hall. apply Hall. lia.
Qed.

(** C7.  On the 8-by-8 board, the mask of player +1 in the initial
    position marks exactly 22 actions: 8 straight, 7 to the right and 7 to
    the left.  Every marked action decodes to a move from row 6 to row 5,
    and every action whose decoded destination is in row 6 or row 7 is
    unmarked. *)
Theorem C7_initial_moves :
  ∃ b mask,
    getInitBoard 8 = Some b ∧ getValidMoves 8 b 1 = Some mask ∧
    length (legal_actions 8 mask) = 22%nat ∧
    length (legal_with_shift 8 1 0 mask) = 8%nat ∧
    length (legal_with_shift 8 1 1 mask) = 7%nat ∧
    length (legal_with_shift 8 1 (-1) mask) = 7%nat ∧
    (∀ a, 0 ≤ a < getActionSize 8 → mask_at mask a = Some 1 →
       src_row (decode 8 1 a) = 6 ∧ dest_row (decode 8 1 a) = 5) ∧
    (∀ a, 0 ≤ a < getActionSize 8 →
       dest_row (decode 8 1 a) = 6 ∨ dest_row (decode 8 1 a) = 7 →
       mask_at mask a = Some 0).
Proof.
  eexists. eexists.
  split; [vm_compute; reflexivity|].
  split; [vm_compute; reflexivity|].
  split; [vm_compute; reflexivity|].
  split; [vm_compute; reflexivity|].
  split; [vm_compute; reflexivity|].
  split; [vm_compute; reflexivity|].
  split.
  - intros a Ha Hbit. revert a Ha Hbit.
    apply (forall_actions (λ a, mask_at _ a = Some 1 →
             src_row (decode 8 1 a) = 6 ∧ dest_row (decode 8 1 a) = 5)).
    vm_compute. reflexivity.
  - intros a Ha Hrow. revert a Ha Hrow.
    apply (forall_actions (λ a,
             dest_row (decode 8 1 a) = 6 ∨ dest_row (decode 8 1 a) = 7 →
             mask_at _ a = Some 0)).
    vm_compute. reflexivity.
Qed.

(** * Further properties *)

(** ** The numbering is a bijection onto the single steps *)

Lemma mirror_rows_inj n m1 m2 : mirror_rows n m1 = mirror_rows n m2 → m1 = m2.
Proof.
  destruct m1, m2. unfold mirror_rows. cbn. intros [=]. f_equal; lia.
Qed.

Lemma decode_player n p a :
  decode n p a = (if decide (p < 0) then mirror_rows n else id) (decode n 1 a).
Proof.
  rewrite !(decode_unfold n). cbv zeta.
  by rewrite (decide_False (P := 1 < 0)) by lia.
Qed.

Lemma decode_canonical_inj n a1 a2 :
  size_ok n → 0 ≤ a1 < getActionSize n → 0 ≤ a2 < getActionSize n →
  decode n 1 a1 = decode n 1 a2 → a1 = a2.
Proof.
  intros Hn H1 H2.
  pose proof (half_double n Hn) as Hd.
  destruct (action_regions n Hn a1 H1)
    as [(i & j & Hi & Hj & ->)|[(i & j & Hi & Hj & ->)|
        [(i & j & Hi & Hj & ->)|(i & j & Hi & Hj & ->)]]];
  destruct (action_regions n Hn a2 H2)
    as [(i' & j' & Hi' & Hj' & ->)|[(i' & j' & Hi' & Hj' & ->)|
        [(i' & j' & Hi' & Hj' & ->)|(i' & j' & Hi' & Hj' & ->)]]];
  rewrite ?(decode_region1 n Hn), ?(decode_region2 n Hn),
    ?(decode_region3 n Hn), ?(decode_region4 n Hn) by done;
  intros [=]; try lia;
  assert (i = i') as -> by lia; assert (j = j') as -> by lia; reflexivity.
Qed.

Lemma decode_inj n p a1 a2 :
  size_ok n → 0 ≤ a1 < getActionSize n → 0 ≤ a2 < getActionSize n →
  decode n p a1 = decode n p a2 → a1 = a2.
Proof.
  intros Hn H1 H2. rewrite (decode_player n p a1), (decode_player n p a2).
  case_decide; intros Heq.
  - apply mirror_rows_inj in Heq. by apply (decode_canonical_inj n).
  - by apply (decode_canonical_inj n).
Qed.

Lemma decode_canonical_surj n r c c' :
  size_ok n → 1 ≤ r < n → 0 ≤ c < n → 0 ≤ c' < n → -1 ≤ c' - c ≤ 1 →
  ∃ a, 0 ≤ a < getActionSize n ∧ decode n 1 a = Move r c (r - 1) c'.
Proof.
  intros Hn Hr Hc Hc' Hd.
  pose proof (half_double n Hn) as Hdbl. pose proof (half_pos n Hn) as Hh.
  pose proof (action_size_QP n Hn) as HA. cbv zeta in HA.
  set (w := n - 1) in *. set (h := n `div` 2) in *.
  assert (Hw : 0 < w) by (subst w; lia).
  assert (HQ : 0 ≤ w * w) by nia. assert (HP : 0 ≤ w * h) by nia.
  destruct (decide (c' = c + 1)) as [->|Hne1];
    [|destruct (decide (c' = c - 1)) as [->|Hne2]].
  - exists ((r - 1) * w + c). split.
    + assert ((r - 1) * w + c < w * w) by nia. nia.
    + rewrite (decode_region1 n Hn) by (subst w; lia). f_equal; lia.
  - exists (w * w + w * h + w * h + (n - 1 - r) * w + (c - 1)). split.
    + assert (0 ≤ (n - 1 - r) * w + (c - 1) < w * w) by (subst w; nia). lia.
    + rewrite (decode_region4 n Hn) by (subst w; lia). f_equal; lia.
  - assert (c' = c) as -> by lia.
    destruct (decide (c < h)) as [Hlt|Hge].
    + exists (w * w + (r - 1) * h + c). split.
      * assert (0 ≤ (r - 1) * h + c < w * h) by (subst w; nia). lia.
      * rewrite (decode_region2 n Hn) by (subst w h; lia). f_equal; lia.
    + exists (w * w + w * h + (n - 1 - r) * h + (c - h)). split.
      * assert (0 ≤ (n - 1 - r) * h + (c - h) < w * h) by (subst w; nia). lia.
      * rewrite (decode_region3 n Hn) by (subst w h; lia). f_equal; lia.
Qed.

Lemma decode_surj n p r c r' c' :
  size_ok n → player_ok p →
  0 ≤ r < n → 0 ≤ c < n → 0 ≤ r' < n → 0 ≤ c' < n →
  r' = r - p → -1 ≤ c' - c ≤ 1 →
  ∃ a, 0 ≤ a < getActionSize n ∧ decode n p a = Move r c r' c'.
Proof.
  intros Hn [-> | ->] Hr Hc Hr' Hc' -> Hd.
  - destruct (decode_canonical_surj n r c c' Hn) as (a & Ha & Hdec);
      [lia|done|done|done|]. exists a. split; [done|].
    rewrite Hdec. f_equal.
  - destruct (decode_canonical_surj n (n - 1 - r) c c' Hn) as (a & Ha & Hdec);
      [lia|done|done|done|]. exists a. split; [done|].
    rewrite (decode_player n (-1) a), Hdec.
    rewrite decide_True by lia. unfold mirror_rows. cbn. f_equal; lia.
Qed.

(** ** The mask, bit by bit, on the board itself *)

(** The bit of an action in terms of the two cells its move touches. *)
Lemma mask_bit_cells n b p a mask :
  size_ok n → shape_ok n b → player_ok p → 0 ≤ a < getActionSize n →
  getValidMoves n b p = Some mask →
  let m := decode n p a in
  ∃ x y,
    getitem b (src_row m) (src_col m) = Some x ∧
    getitem b (dest_row m) (dest_col m) = Some y ∧
    mask_at mask a =
      Some (bool_to_int8
              (bool_decide (0 < canonical_value p x) &&
               (if decide (dest_col m = src_col m)
                then bool_decide (canonical_value p y = 0)
                else bool_decide (canonical_value p y ≤ 0)))).
Proof.
  intros Hn Hb Hp Ha Hmask m.
  destruct (valid_mask_decode n b p Hn Hb) as (mask' & Hmask' & _ & Hdec).
  rewrite Hmask in Hmask'. injection Hmask' as <-.
  rewrite (Hdec a Ha).
  pose proof (decode_range n Hn 1 a Ha) as (Hsr & Hsc & Hdr & Hdc).
  unfold legal_move. rewrite !(canonical_getitem n) by done.
  subst m. rewrite (decode_player n p a). unfold canonical_value.
  destruct Hp as [-> | ->].
  - rewrite (decide_False (P := 1 < 0)) by lia.
    rewrite !(decide_True (P := 0 < 1)) by lia. cbn [id].
    destruct (getitem_is_Some n b _ _ Hb Hsr Hsc) as [x Hx].
    destruct (getitem_is_Some n b _ _ Hb Hdr Hdc) as [y Hy].
    exists x, y. by rewrite Hx, Hy.
  - rewrite (decide_True (P := -1 < 0)) by lia.
    rewrite !(decide_False (P := 0 < -1)) by lia.
    unfold mirror_rows. cbn [src_row src_col dest_row dest_col].
    destruct (getitem_is_Some n b (n - src_row (decode n 1 a) - 1)
                (src_col (decode n 1 a)) Hb) as [x Hx]; [lia|lia|].
    destruct (getitem_is_Some n b (n - dest_row (decode n 1 a) - 1)
                (dest_col (decode n 1 a)) Hb) as [y Hy]; [lia|lia|].
    exists x, y. by rewrite Hx, Hy.
Qed.

Lemma mask_bit_iff n b p a mask :
  size_ok n → shape_ok n b → cells_ok b → player_ok p →
  0 ≤ a < getActionSize n →
  getValidMoves n b p = Some mask →
  (mask_at mask a = Some 1 ↔ legal_on b p (decode n p a)) ∧
  (mask_at mask a = Some 0 ↔ ¬ legal_on b p (decode n p a)).
Proof.
  intros Hn Hb Hcells Hp Ha Hmask.
  destruct (mask_bit_cells n b p a mask Hn Hb Hp Ha Hmask)
    as (x & y & Hx & Hy & ->).
  destruct (decode_range n Hn p a Ha) as (Hsr & Hsc & Hdr & Hdc).
  pose proof (cells_ok_getitem n b _ _ x Hb Hcells Hsr Hsc Hx) as Vx.
  pose proof (cells_ok_getitem n b _ _ y Hb Hcells Hdr Hdc Hy) as Vy.
  assert (Hown : 0 < canonical_value p x ↔ x = p).
  { destruct Hp as [-> | ->], Vx as [-> | [-> | ->]]; by vm_compute. }
  assert (Hfree : canonical_value p y ≤ 0 ↔ y ≠ p).
  { destruct Hp as [-> | ->], Vy as [-> | [-> | ->]]; vm_compute;
      split; congruence. }
  assert (Hempty : canonical_value p y = 0 ↔ y = 0).
  { destruct Hp as [-> | ->], Vy as [-> | [-> | ->]]; by vm_compute. }
  set (t := bool_decide (0 < canonical_value p x) && _).
  assert (Ht : t = true ↔ legal_on b p (decode n p a)).
  { subst t. unfold legal_on. rewrite Hx, Hy, andb_true_iff.
    rewrite bool_decide_eq_true, Hown. split.
    - intros [-> Hd]. split; [done|]. exists y. split; [done|].
      case_decide as Hc; apply bool_decide_eq_true in Hd.
      + apply Hempty in Hd. subst y. split; [destruct Hp; lia|done].
      + split; [by apply Hfree|]. intros; contradiction.
    - intros ([= ->] & y' & [= <-] & Hne & Hstr). split; [done|].
      case_decide; apply bool_decide_eq_true.
      + apply Hempty. auto.
      + by apply Hfree. }
  destruct t; cbn; split.
  - split; [intros _; by apply Ht|done].
  - split; [done|]. intros Hnot. exfalso. apply Hnot. by apply Ht.
  - split; [done|]. intros Hl. apply Ht in Hl. done.
  - split; [|done]. intros _ Hl. apply Ht in Hl. done.
Qed.

Lemma mask_bit_legal n b a mask :
  size_ok n → shape_ok n b → cells_ok b → 0 ≤ a < getActionSize n →
  getValidMoves n b 1 = Some mask →
  legal_on b 1 (decode n 1 a) → mask_at mask a = Some 1.
Proof.
  intros Hn Hb Hc Ha Hm.
  by apply (mask_bit_iff n b 1 a mask Hn Hb Hc (or_introl eq_refl) Ha Hm).
Qed.

Lemma mask_bit_illegal n b a mask :
  size_ok n → shape_ok n b → cells_ok b → 0 ≤ a < getActionSize n →
  getValidMoves n b 1 = Some mask →
  ¬ legal_on b 1 (decode n 1 a) → mask_at mask a = Some 0.
Proof.
  intros Hn Hb Hc Ha Hm.
  by apply (mask_bit_iff n b 1 a mask Hn Hb Hc (or_introl eq_refl) Ha Hm).
Qed.

Lemma mask_bit_set n b a mask :
  size_ok n → shape_ok n b → cells_ok b → 0 ≤ a < getActionSize n →
  getValidMoves n b 1 = Some mask →
  mask_at mask a = Some 1 → legal_on b 1 (decode n 1 a).
Proof.
  intros Hn Hb Hc Ha Hm.
  by apply (mask_bit_iff n b 1 a mask Hn Hb Hc (or_introl eq_refl) Ha Hm).
Qed.

(** ** The numbering and the mask *)

(** X1.  For a fixed player, two actions in range that decode to the same
    move are the same action. *)
Theorem X1_decode_injective n p a1 a2 :
  size_ok n → 0 ≤ a1 < getActionSize n → 0 ≤ a2 < getActionSize n →
  decode n p a1 = decode n p a2 → a1 = a2.
Proof. apply decode_inj. Qed.

Lemma X1_decode_injective_witness : 17 = 17.
Proof.
  apply (X1_decode_injective 4 (-1) 17 17).
  - by_compute.
  - by_compute.
  - by_compute.
  - reflexivity.
Defined.

(** X2.  Every step on the board that goes one row forward for the player
    (row minus one for +1, plus one for -1) and at most one column aside
    is the decoded move of some action in range. *)
Theorem X2_decode_surjective n p r c r' c' :
  size_ok n → player_ok p →
  0 ≤ r < n → 0 ≤ c < n → 0 ≤ r' < n → 0 ≤ c' < n →
  r' = r - p → -1 ≤ c' - c ≤ 1 →
  ∃ a, 0 ≤ a < getActionSize n ∧ decode n p a = Move r c r' c'.
Proof. apply decode_surj. Qed.

Lemma X2_decode_surjective_witness :
  ∃ a, 0 ≤ a < getActionSize 6 ∧ decode 6 (-1) a = Move 2 5 3 4.
Proof.
  apply (X2_decode_surjective 6 (-1) 2 5 3 4).
  - by_compute.
  - by right.
  - lia.
  - lia.
  - lia.
  - lia.
  - lia.
  - lia.
Defined.

(** X3.  On a board with cells in {-1, 0, +1}, the bit of an action is 1
    exactly when its decoded move is legal (the source holds a piece of
    the player, the destination does not, and a straight step ends on an
    empty cell), and 0 exactly when it is not. *)
Theorem X3_mask_exact n b p a mask :
  size_ok n → shape_ok n b → cells_ok b → player_ok p →
  0 ≤ a < getActionSize n →
  getValidMoves n b p = Some mask →
  (mask_at mask a = Some 1 ↔ legal_on b p (decode n p a)) ∧
  (mask_at mask a = Some 0 ↔ ¬ legal_on b p (decode n p a)).
Proof. apply mask_bit_iff. Qed.

Lemma X3_mask_exact_witness :
  let b := [[-1; -1; -1; -1]; [0; 0; 0; 0]; [0; 1; 0; 0]; [1; 0; 1; 1]] in
  let mask := [0; 0; 0; 0; 1; 0; 0; 0; 1; 0; 0; 0; 1; 1; 0;
               1; 1; 0; 0; 0; 0; 0; 0; 1; 1; 0; 0; 0; 0; 0] in
  (mask_at mask 7 = Some 1 ↔ legal_on b 1 (decode 4 1 7)) ∧
  (mask_at mask 7 = Some 0 ↔ ¬ legal_on b 1 (decode 4 1 7)).
Proof.
  intros b mask. apply (X3_mask_exact 4 b 1 7 mask).
  - by_compute.
  - by_compute.
  - by_compute.
  - by left.
  - by_compute.
  - vm_compute. reflexivity.
Defined.

(** ** The mask of the mirrored board *)

Lemma canonical_fliplr n b p :
  getCanonicalForm n (fliplr b) p = fliplr (getCanonicalForm n b p).
Proof.
  unfold getCanonicalForm. case_decide; [done|].
  unfold flipud, fliplr. rewrite fmap_reverse. f_equal.
  rewrite <- !list_fmap_compose. apply list_fmap_ext.
  intros i row _. cbn. by rewrite fmap_reverse.
Qed.

Lemma legal_move_fliplr n c m :
  shape_ok n c →
  0 ≤ src_row m < n → 0 ≤ src_col m < n →
  0 ≤ dest_row m < n → 0 ≤ dest_col m < n →
  legal_move (fliplr c) m = legal_move c (mirror_cols n m).
Proof.
  intros Hc Hsr Hsc Hdr Hdc. unfold legal_move, mirror_cols.
  cbn [src_row src_col dest_row dest_col].
  rewrite !(fliplr_getitem n) by done.
  replace (n - 1 - src_col m) with (n - src_col m - 1) by lia.
  replace (n - 1 - dest_col m) with (n - dest_col m - 1) by lia.
  destruct (getitem c (src_row m) _) as [x|]; [|done].
  destruct (getitem c (dest_row m) _) as [y|]; [|done].
  cbn [mbind option_bind]. do 2 f_equal.
  destruct (decide (dest_col m = src_col m)) as [He|He].
  - by rewrite decide_True by lia.
  - by rewrite decide_False by lia.
Qed.

(** X4.  Mirroring the board left to right reverses the mask:
    [getValidMoves] of [fliplr b] is the mask of [b] read backwards, so
    entry [a] of the one is entry [actionSize - 1 - a] of the other. *)
Theorem X4_mask_mirror n b p mask :
  size_ok n → shape_ok n b →
  getValidMoves n b p = Some mask →
  getValidMoves n (fliplr b) p = Some (reverse mask).
Proof.
  intros Hn Hb Hmask.
  assert (Hb' : shape_ok n (fliplr b)) by (by apply is_mat_fliplr).
  destruct (valid_mask_decode n b p Hn Hb) as (m1 & Hm1 & L1 & D1).
  destruct (valid_mask_decode n (fliplr b) p Hn Hb') as (m2 & Hm2 & L2 & D2).
  rewrite Hmask in Hm1. injection Hm1 as <-. rewrite Hm2. f_equal.
  apply list_eq. intros i.
  destruct (decide (i < length mask)%nat) as [Hi|Hi].
  - rewrite reverse_lookup by done.
    assert (Ha : 0 ≤ Z.of_nat i < getActionSize n) by lia.
    assert (Ha' : 0 ≤ getActionSize n - 1 - Z.of_nat i < getActionSize n) by lia.
    specialize (D2 _ Ha). specialize (D1 _ Ha').
    unfold mask_at in D1, D2.
    rewrite np_index_in_range in D1 by lia.
    rewrite np_index_in_range in D2 by lia.
    cbn [mbind option_bind] in D1, D2. rewrite Nat2Z.id in D2.
    replace (Z.to_nat (getActionSize n - 1 - Z.of_nat i))
      with (length mask - S i)%nat in D1 by lia.
    rewrite D1, D2. f_equal.
    rewrite canonical_fliplr.
    destruct (decode_range n Hn 1 _ Ha) as (? & ? & ? & ?).
    rewrite (legal_move_fliplr n) by (done || by apply canonical_shape).
    by rewrite <- (decode_mirror n Hn 1 _ Ha).
  - rewrite !lookup_ge_None_2; [done| |]; rewrite ?length_reverse; lia.
Qed.

Lemma X4_mask_mirror_witness :
  let b := [[-1; -1; -1; -1]; [0; 0; 0; 0]; [0; 1; 0; 0]; [1; 0; 1; 1]] in
  let mask := [0; 0; 0; 0; 1; 0; 0; 0; 1; 0; 0; 0; 1; 1; 0;
               1; 1; 0; 0; 0; 0; 0; 0; 1; 1; 0; 0; 0; 0; 0] in
  getValidMoves 4 (fliplr b) 1 = Some (reverse mask).
Proof.
  intros b mask. apply (X4_mask_mirror 4 b 1 mask).
  - by_compute.
  - by_compute.
  - vm_compute. reflexivity.
Defined.

(** ** Well-formed boards stay well-formed *)

Lemma cells_from_cell {A} (P : A → Prop) (m : list (list A)) :
  (∀ i j x, cell m i j = Some x → P x) ↔ Forall (Forall P) m.
Proof.
  split.
  - intros Hc. apply Forall_lookup. intros i row Hrow.
    apply Forall_lookup. intros j x Hx. apply (Hc i j).
    unfold cell. by rewrite Hrow.
  - intros Hf i j x Hx. unfold cell in Hx.
    destruct (m !! i) as [row|] eqn:E; [|done]. cbn in Hx.
    rewrite Forall_lookup in Hf. specialize (Hf _ _ E).
    rewrite Forall_lookup in Hf. eauto.
Qed.

(** X5.  For any action in range, legal or not, the board returned by
    [getNextState] is again [n]-by-[n] with cells in {-1, 0, +1}. *)
Theorem X5_next_state_well_formed n (s : gmap nat board) l b p a l' q s' b' :
  size_ok n → shape_ok n b → cells_ok b → player_ok p →
  0 ≤ a < getActionSize n → s !! l = Some b →
  getNextState n l p a s = Some ((l', q), s') → s' !! l' = Some b' →
  shape_ok n b' ∧ cells_ok b'.
Proof.
  intros Hn Hb Hcells Hp Ha Hl Hrun Hres.
  rewrite (getNextState_run n s l b p a Hl) in Hrun.
  destruct (next_board_spec n b p a Hn Hb (player_int8 p Hp) Ha)
    as (b1 & Hnext & Hb1 & Hcell).
  rewrite Hnext in Hrun. cbn in Hrun. injection Hrun as <- <- <-.
  rewrite lookup_insert_eq in Hres. injection Hres as <-.
  split; [done|]. apply cells_from_cell. intros i j x.
  rewrite Hcell. repeat case_decide.
  - intros [= <-]. destruct Hp; lia.
  - intros [= <-]. lia.
  - apply (proj2 (cells_from_cell _ b) Hcells i j x).
Qed.

Lemma X5_next_state_well_formed_witness :
  let b' := [[-1; -1; -1; -1]; [0; 0; 1; 0]; [0; 0; 0; 0]; [1; 0; 1; 1]] in
  shape_ok 4 b' ∧ cells_ok b'.
Proof.
  intros b'.
  apply (X5_next_state_well_formed 4 {[ 0%nat := [[-1; -1; -1; -1]; [0; 0; 0; 0]; [0; 1; 0; 0]; [1; 0; 1; 1]] ]} 0%nat
           [[-1; -1; -1; -1]; [0; 0; 0; 0]; [0; 1; 0; 0]; [1; 0; 1; 1]] 1 4 1%nat (-1)
           (<[ 1%nat := b' ]> {[ 0%nat := [[-1; -1; -1; -1]; [0; 0; 0; 0]; [0; 1; 0; 0]; [1; 0; 1; 1]] ]}) b').
  - by_compute.
  - by_compute.
  - by_compute.
  - by left.
  - by_compute.
  - reflexivity.
  - vm_compute. reflexivity.
  - reflexivity.
Defined.

(** ** The canonical form *)

Lemma negate_twice x : x = -1 ∨ x = 0 ∨ x = 1 → wrap8 (wrap8 (x * -1) * -1) = x.
Proof. by intros [-> | [-> | ->]]. Qed.

(** X6.  On a board with cells in {-1, 0, +1}, taking the canonical form
    for player -1 twice gives the board back. *)
Theorem X6_canonical_involutive n b :
  cells_ok b →
  getCanonicalForm n (getCanonicalForm n b (-1)) (-1) = b.
Proof.
  intros Hcells. unfold getCanonicalForm.
  rewrite !(decide_False (P := 0 < -1)) by lia. unfold flipud.
  rewrite fmap_reverse, reverse_involutive, <- list_fmap_compose.
  rewrite <- (list_fmap_id b) at 2.
  apply Forall_fmap_ext. eapply Forall_impl; [exact Hcells|].
  intros row Hrow. cbn. rewrite <- list_fmap_compose.
  rewrite <- (list_fmap_id row) at 2.
  apply Forall_fmap_ext. eapply Forall_impl; [exact Hrow|].
  intros x Hx. cbn. by apply negate_twice.
Qed.

Lemma X6_canonical_involutive_witness :
  let b := [[-1; -1; -1; -1]; [0; 0; 0; 0]; [0; 1; 0; 0]; [1; 0; 1; 1]] in
  getCanonicalForm 4 (getCanonicalForm 4 b (-1)) (-1) = b.
Proof.
  intros b. apply (X6_canonical_involutive 4 b). by_compute.
Defined.

(** ** Terminal positions *)

Lemma init_board_cells n :
  size_ok n →
  ∃ b, getInitBoard n = Some b ∧ shape_ok n b ∧
    ∀ r c, 0 ≤ r < n → 0 ≤ c < n →
      getitem b r c =
        Some (if decide (r < 2) then -1
              else if decide (n - 2 ≤ r) then 1 else 0).
Proof.
  intros [H4 Hev]. unfold getInitBoard, np_zeros.
  rewrite decide_True by lia. cbn [mbind option_bind].
  pose proof (zeros_mat (Z.to_nat n) (Z.to_nat n)) as M0.
  destruct (row_iadd_spec _ _ _ 0 (-1) M0) as (b1 & -> & M1 & C1); [lia|].
  cbn [mbind option_bind].
  destruct (row_iadd_spec _ _ _ 1 (-1) M1) as (b2 & -> & M2 & C2); [lia|].
  cbn [mbind option_bind].
  destruct (row_iadd_spec _ _ _ (n - 1) 1 M2) as (b3 & -> & M3 & C3); [lia|].
  cbn [mbind option_bind].
  destruct (row_iadd_spec _ _ _ (n - 2) 1 M3) as (b4 & -> & M4 & C4); [lia|].
  exists b4. split; [done|]. split; [done|].
  intros r c Hr Hc. rewrite (getitem_cell n) by done.
  rewrite C4, C3, C2, C1, zeros_cell by lia.
  repeat case_decide; try lia; reflexivity.
Qed.

Lemma game_ended_cases n b p :
  0 < n → shape_ok n b →
  (reached b n 0 1 → getGameEnded n b p = Some p) ∧
  (¬ reached b n 0 1 → reached b n (n - 1) (-1) →
     getGameEnded n b p = Some (- p)) ∧
  (¬ reached b n 0 1 → ¬ reached b n (n - 1) (-1) →
     getGameEnded n b p = Some 0).
Proof.
  intros Hpos Hb. unfold getGameEnded, reached.
  destruct (getrow_spec n b 0 Hb) as (row0 & -> & H0); [lia|].
  destruct (getrow_spec n b (n - 1) Hb) as (rowl & -> & Hl); [lia|].
  cbn. rewrite <- H0, <- Hl.
  repeat split; intros; repeat case_bool_decide; done.
Qed.

(** X7.  The initial position is not terminal: [getGameEnded] returns 0
    on it for every player argument. *)
Theorem X7_init_not_terminal n b p :
  size_ok n → getInitBoard n = Some b → getGameEnded n b p = Some 0.
Proof.
  intros Hn Hinit.
  destruct (init_board_cells n Hn) as (b' & Hb' & Hshape & Hcells).
  rewrite Hinit in Hb'. injection Hb' as <-.
  destruct Hn as [H4 Hev].
  destruct (game_ended_cases n b p ltac:(lia) Hshape) as (_ & _ & Hnone).
  apply Hnone.
  - intros (c & Hc & Hx). rewrite Hcells in Hx by lia.
    rewrite decide_True in Hx by lia. done.
  - intros (c & Hc & Hx). rewrite Hcells in Hx by lia.
    rewrite decide_False in Hx by lia. rewrite decide_True in Hx by lia. done.
Qed.

Lemma X7_init_not_terminal_witness :
  getGameEnded 4
    [[-1; -1; -1; -1]; [-1; -1; -1; -1]; [1; 1; 1; 1]; [1; 1; 1; 1]] (-1)
  = Some 0.
Proof.
  apply (X7_init_not_terminal 4).
  - by_compute.
  - reflexivity.
Defined.

(** X8.  When an action of player +1 decodes to a destination in row 0,
    [getGameEnded] on the board returned by [getNextState] returns its
    player argument. *)
Theorem X8_reaching_far_row_wins n (s : gmap nat board) l b a l' q s' b' p :
  size_ok n → shape_ok n b → 0 ≤ a < getActionSize n →
  s !! l = Some b →
  getNextState n l 1 a s = Some ((l', q), s') → s' !! l' = Some b' →
  dest_row (decode n 1 a) = 0 →
  getGameEnded n b' p = Some p.
Proof.
  intros Hn Hb Ha Hl Hrun Hres Hrow.
  rewrite (getNextState_run n s l b 1 a Hl) in Hrun.
  destruct (next_board_spec n b 1 a Hn Hb ltac:(lia) Ha)
    as (b1 & Hnext & Hb1 & Hcell).
  rewrite Hnext in Hrun. cbn in Hrun. injection Hrun as <- <- <-.
  rewrite lookup_insert_eq in Hres. injection Hres as <-.
  destruct (decode_range n Hn 1 a Ha) as (Hsr & Hsc & Hdr & Hdc).
  destruct Hn as [H4 Hev].
  destruct (game_ended_cases n b1 p ltac:(lia) Hb1) as (Hwin & _).
  apply Hwin. exists (dest_col (decode n 1 a)). split; [done|].
  rewrite <- Hrow. rewrite (getitem_cell n), Hcell by done.
  by rewrite decide_True.
Qed.

Lemma X8_reaching_far_row_wins_witness :
  getGameEnded 4 [[-1; 1; -1; -1]; [0; 0; 0; 0]; [0; 0; 0; 0]; [0; 1; 1; 1]] (-1)
  = Some (-1).
Proof.
  apply (X8_reaching_far_row_wins 4 {[ 0%nat := [[-1; 0; -1; -1]; [1; 0; 0; 0]; [0; 0; 0; 0]; [0; 1; 1; 1]] ]} 0%nat
           [[-1; 0; -1; -1]; [1; 0; 0; 0]; [0; 0; 0; 0]; [0; 1; 1; 1]] 0 1%nat (-1)
           (<[ 1%nat := [[-1; 1; -1; -1]; [0; 0; 0; 0]; [0; 0; 0; 0]; [0; 1; 1; 1]] ]>
              {[ 0%nat := [[-1; 0; -1; -1]; [1; 0; 0; 0]; [0; 0; 0; 0]; [0; 1; 1; 1]] ]})).
  - by_compute.
  - by_compute.
  - by_compute.
  - reflexivity.
  - vm_compute. reflexivity.
  - reflexivity.
  - reflexivity.
Defined.

(** X9.  When an action of player -1 decodes to a destination in row
    [n - 1] and no +1 stands in row 0, [getGameEnded] on the board
    returned by [getNextState] returns the negated player argument. *)
Theorem X9_reaching_near_row_wins n (s : gmap nat board) l b a l' q s' b' p :
  size_ok n → shape_ok n b → 0 ≤ a < getActionSize n →
  s !! l = Some b →
  getNextState n l (-1) a s = Some ((l', q), s') → s' !! l' = Some b' →
  dest_row (decode n (-1) a) = n - 1 →
  ¬ reached b n 0 1 →
  getGameEnded n b' p = Some (- p).
Proof.
  intros Hn Hb Ha Hl Hrun Hres Hrow Hfree.
  rewrite (getNextState_run n s l b (-1) a Hl) in Hrun.
  destruct (next_board_spec n b (-1) a Hn Hb ltac:(lia) Ha)
    as (b1 & Hnext & Hb1 & Hcell).
  rewrite Hnext in Hrun. cbn in Hrun. injection Hrun as <- <- <-.
  rewrite lookup_insert_eq in Hres. injection Hres as <-.
  destruct (decode_range n Hn (-1) a Ha) as (Hsr & Hsc & Hdr & Hdc).
  destruct Hn as [H4 Hev].
  destruct (game_ended_cases n b1 p ltac:(lia) Hb1) as (_ & Hwin & _).
  apply Hwin.
  - intros (c & Hc & Hx). apply Hfree. exists c. split; [done|].
    rewrite (getitem_cell n) in Hx |- * by (done || lia).
    rewrite Hcell in Hx. by repeat case_decide.
  - exists (dest_col (decode n (-1) a)). split; [done|].
    rewrite <- Hrow. rewrite (getitem_cell n), Hcell by done.
    by rewrite decide_True.
Qed.

Lemma X9_reaching_near_row_wins_witness :
  getGameEnded 4 [[-1; -1; -1; 0]; [0; 0; 0; 0]; [0; 0; 0; 0]; [1; -1; 1; 1]] 1
  = Some (- 1).
Proof.
  apply (X9_reaching_near_row_wins 4 {[ 0%nat := [[-1; -1; -1; 0]; [0; 0; 0; 0]; [-1; 0; 0; 0]; [1; 0; 1; 1]] ]} 0%nat
           [[-1; -1; -1; 0]; [0; 0; 0; 0]; [-1; 0; 0; 0]; [1; 0; 1; 1]] 0 1%nat 1
           (<[ 1%nat := [[-1; -1; -1; 0]; [0; 0; 0; 0]; [0; 0; 0; 0]; [1; -1; 1; 1]] ]>
              {[ 0%nat := [[-1; -1; -1; 0]; [0; 0; 0; 0]; [-1; 0; 0; 0]; [1; 0; 1; 1]] ]})).
  - by_compute.
  - by_compute.
  - by_compute.
  - reflexivity.
  - vm_compute. reflexivity.
  - reflexivity.
  - reflexivity.
  - intros (c & Hc & Hx).
    assert (c = 0 ∨ c = 1 ∨ c = 2 ∨ c = 3) as [-> | [-> | [-> | ->]]] by lia;
      vm_compute in Hx; discriminate.
Defined.

(** ** The string key of a board *)

Lemma cell_str_Some x :
  -3 ≤ x ≤ 2 → cell_str x = Some (String (cell_char x) EmptyString).
Proof.
  intros Hx.
  assert (x = -3 ∨ x = -2 ∨ x = -1 ∨ x = 0 ∨ x = 1 ∨ x = 2) as Hc by lia.
  destruct Hc as [-> | [-> | [-> | [-> | [-> | ->]]]]]; reflexivity.
Qed.

Lemma cell_str_None x : ¬ (-3 ≤ x ≤ 2) → cell_str x = None.
Proof.
  intros Hx. unfold cell_str, np_index.
  rewrite decide_False by (cbn; lia). by rewrite decide_False by (cbn; lia).
Qed.

Lemma cell_str_is_Some x : is_Some (cell_str x) ↔ -3 ≤ x ≤ 2.
Proof.
  split.
  - intros [s Hs]. destruct (decide (-3 ≤ x ≤ 2)) as [|Hn]; [done|].
    by rewrite cell_str_None in Hs.
  - intros Hx. rewrite cell_str_Some by done. eauto.
Qed.

Lemma Forall_flatten {A} (P : A → Prop) (m : list (list A)) :
  Forall P (flatten m) ↔ Forall (Forall P) m.
Proof.
  unfold flatten. induction m as [|row m IH]; cbn.
  - split; constructor.
  - rewrite Forall_app, Forall_cons, IH. done.
Qed.

Lemma mapM_cell_str l :
  Forall (λ x, -3 ≤ x ≤ 2) l →
  mapM cell_str l = Some ((λ x, String (cell_char x) EmptyString) <$> l).
Proof.
  intros Hl. apply mapM_Some. induction Hl as [|x l Hx _ IH]; cbn.
  - constructor.
  - constructor; [by apply cell_str_Some|done].
Qed.

Lemma concat_chars (cs : list Ascii.ascii) :
  String.concat EmptyString ((λ c, String c EmptyString) <$> cs)
  = String.string_of_list_ascii cs.
Proof.
  induction cs as [|c cs IH]; [done|].
  cbn [fmap list_fmap] in *. cbn [String.concat].
  destruct cs as [|c' cs]; [done|].
  cbn [fmap list_fmap] in *. rewrite IH. reflexivity.
Qed.

Lemma stringRepresentation_chars b :
  Forall (Forall (λ x, -3 ≤ x ≤ 2)) b →
  stringRepresentation b = Some (String.string_of_list_ascii (cell_char <$> flatten b)).
Proof.
  intros Hb. unfold stringRepresentation.
  rewrite mapM_cell_str by (by apply Forall_flatten). cbn.
  rewrite <- concat_chars. by rewrite <- list_fmap_compose.
Qed.

Lemma string_domain b :
  is_Some (stringRepresentation b) ↔ Forall (Forall (λ x, -3 ≤ x ≤ 2)) b.
Proof.
  split.
  - unfold stringRepresentation. intros [s Hs].
    destruct (mapM cell_str (flatten b)) as [cs|] eqn:E; [|done].
    apply Forall_flatten.
    assert (Hall : Forall (is_Some ∘ cell_str) (flatten b))
      by (apply mapM_is_Some; eauto).
    eapply Forall_impl; [exact Hall|]. intros x. cbn. apply cell_str_is_Some.
  - intros Hb. rewrite stringRepresentation_chars by done. eauto.
Qed.

(** X10.  [stringRepresentation] returns exactly when every cell lies in
    [-3, 2], the index range of the three-element tuple; any other cell
    value makes it raise. *)
Theorem X10_string_representation_domain b :
  is_Some (stringRepresentation b) ↔ Forall (Forall (λ x, -3 ≤ x ≤ 2)) b.
Proof. apply string_domain. Qed.

Lemma string_of_list_length cs : String.length (String.string_of_list_ascii cs) = length cs.
Proof. induction cs; cbn; congruence. Qed.

(** X11.  The string of an [n]-by-[n] board has [n * n] characters. *)
Theorem X11_string_representation_length n b s :
  shape_ok n b → stringRepresentation b = Some s →
  String.length s = (Z.to_nat n * Z.to_nat n)%nat.
Proof.
  intros Hb Hs.
  assert (Hdom : Forall (Forall (λ x, -3 ≤ x ≤ 2)) b)
    by (apply string_domain; eauto).
  rewrite stringRepresentation_chars in Hs by done. injection Hs as <-.
  rewrite string_of_list_length, length_fmap.
  by apply length_flatten.
Qed.

Lemma X11_string_representation_length_witness :
  String.length "BBBB.....W..W.WW" = (Z.to_nat 4 * Z.to_nat 4)%nat.
Proof.
  apply (X11_string_representation_length 4 [[-1; -1; -1; -1]; [0; 0; 0; 0]; [0; 1; 0; 0]; [1; 0; 1; 1]]).
  - by_compute.
  - reflexivity.
Defined.

Lemma cell_char_inj x y :
  (x = -1 ∨ x = 0 ∨ x = 1) → (y = -1 ∨ y = 0 ∨ y = 1) →
  cell_char x = cell_char y → x = y.
Proof.
  intros [-> | [-> | ->]] [-> | [-> | ->]]; vm_compute; congruence.
Qed.

Lemma cells_ok_index_range b :
  cells_ok b → Forall (Forall (λ x, -3 ≤ x ≤ 2)) b.
Proof.
  intros Hb. eapply Forall_impl; [exact Hb|]. intros row Hrow.
  eapply Forall_impl; [exact Hrow|]. intros x. cbn. lia.
Qed.

(** X12.  On [n]-by-[n] boards with cells in {-1, 0, +1},
    [stringRepresentation] is injective. *)
Theorem X12_string_representation_injective n b1 b2 s :
  shape_ok n b1 → shape_ok n b2 → cells_ok b1 → cells_ok b2 →
  stringRepresentation b1 = Some s → stringRepresentation b2 = Some s →
  b1 = b2.
Proof.
  intros H1 H2 C1 C2 S1 S2.
  rewrite stringRepresentation_chars in S1 by (by apply cells_ok_index_range).
  rewrite stringRepresentation_chars in S2 by (by apply cells_ok_index_range).
  rewrite <- S2 in S1. injection S1 as S1.
  apply (f_equal String.list_ascii_of_string) in S1.
  rewrite !String.list_ascii_of_string_of_list_ascii in S1.
  apply (is_mat_ext (Z.to_nat n) (Z.to_nat n)); [done|done|].
  intros i j Hi Hj.
  rewrite <- (flatten_lookup _ _ b1 i j H1 Hj).
  rewrite <- (flatten_lookup _ _ b2 i j H2 Hj).
  apply (f_equal (λ l, l !! (i * Z.to_nat n + j)%nat)) in S1.
  rewrite !list_lookup_fmap in S1.
  destruct (flatten b1 !! _) as [x|] eqn:E1, (flatten b2 !! _) as [y|] eqn:E2;
    try done.
  f_equal. injection S1 as S1. apply cell_char_inj; [| |done].
  - apply list_elem_of_lookup_2 in E1.
    pose proof (proj2 (Forall_flatten _ b1) C1) as F.
    rewrite Forall_forall in F. by apply F.
  - apply list_elem_of_lookup_2 in E2.
    pose proof (proj2 (Forall_flatten _ b2) C2) as F.
    rewrite Forall_forall in F. by apply F.
Qed.

Lemma X12_string_representation_injective_witness :
  [[-1; -1; -1; -1]; [0; 0; 0; 0]; [0; 1; 0; 0]; [1; 0; 1; 1]]
  = fliplr (fliplr [[-1; -1; -1; -1]; [0; 0; 0; 0]; [0; 1; 0; 0]; [1; 0; 1; 1]]).
Proof.
  apply (X12_string_representation_injective 4 _ _ "BBBB.....W..W.WW").
  - by_compute.
  - by_compute.
  - by_compute.
  - by_compute.
  - reflexivity.
  - reflexivity.
Defined.

(** ** The players *)

(** *** Move notation *)

Lemma ord_file f : 0 ≤ f < 8 → ord (file_char f) - ord "a" = f.
Proof.
  intros Hf. unfold ord, file_char.
  rewrite nat_ascii_embedding by lia.
  change (nat_of_ascii "a") with 97%nat. lia.
Qed.

Lemma ord_rank k : 1 ≤ k ≤ 8 → 7 - (ord (rank_char k) - ord "1") = 8 - k.
Proof.
  intros Hk. unfold ord, rank_char.
  rewrite nat_ascii_embedding by lia.
  change (nat_of_ascii "1") with 49%nat. lia.
Qed.

Lemma str_index_prefix c0 c1 c2 c3 rest :
  let s := String c0 (String c1 (String c2 (String c3 rest))) in
  str_index s 0 = Some c0 ∧ str_index s 1 = Some c1 ∧
  str_index s 2 = Some c2 ∧ str_index s 3 = Some c3.
Proof.
  cbv zeta. unfold str_index. cbn [String.length].
  by rewrite !np_index_in_range by lia.
Qed.

(** X13.  [parse_movestr] reads a move written file, rank, file, rank
    (files [a]..[h], ranks [1]..[8]) as rows [8 - rank] and columns
    counted from file [a], and ignores whatever follows the fourth
    character. *)
Theorem X13_parse_movestr_notation f1 k1 f2 k2 rest :
  0 ≤ f1 < 8 → 1 ≤ k1 ≤ 8 → 0 ≤ f2 < 8 → 1 ≤ k2 ≤ 8 →
  parse_movestr
    (String (file_char f1) (String (rank_char k1)
       (String (file_char f2) (String (rank_char k2) rest))))
  = Some (8 - k1, f1, 8 - k2, f2).
Proof.
  intros Hf1 Hk1 Hf2 Hk2. unfold parse_movestr.
  destruct (str_index_prefix (file_char f1) (rank_char k1) (file_char f2)
              (rank_char k2) rest) as (-> & -> & -> & ->).
  cbn [mbind option_bind].
  by rewrite !ord_file, !ord_rank by done.
Qed.

Lemma X13_parse_movestr_notation_witness :
  parse_movestr
    (String (file_char 0) (String (rank_char 2)
       (String (file_char 1) (String (rank_char 3) "!"))))
  = Some (8 - 2, 0, 8 - 3, 1).
Proof.
  apply (X13_parse_movestr_notation 0 2 1 3 "!"); lia.
Defined.

Lemma str_index_is_Some s i :
  0 ≤ i → is_Some (str_index s i) ↔ i < Z.of_nat (String.length s).
Proof.
  intros Hi. unfold str_index, np_index.
  assert (Hlen : length (String.list_ascii_of_string s) = String.length s).
  { induction s; cbn; congruence. }
  destruct (decide (0 ≤ i < Z.of_nat (String.length s))) as [Hin|Hout].
  - cbn. split; [lia|]. intros _. apply lookup_lt_is_Some. lia.
  - rewrite decide_False by lia. cbn. split; [by intros [? ?]|lia].
Qed.

(** X14.  [parse_movestr] returns exactly on strings of at least four
    characters; on a shorter string it raises. *)
Theorem X14_parse_movestr_domain s :
  is_Some (parse_movestr s) ↔ (4 ≤ String.length s)%nat.
Proof.
  unfold parse_movestr. split.
  - intros [r Hr].
    destruct (str_index s 3) as [c3|] eqn:E3.
    + assert (is_Some (str_index s 3)) as H3 by eauto.
      apply str_index_is_Some in H3; lia.
    + destruct (str_index s 1), (str_index s 0); done.
  - intros Hlen.
    destruct (proj2 (str_index_is_Some s 0 ltac:(lia)) ltac:(lia)) as [c0 ->].
    destruct (proj2 (str_index_is_Some s 1 ltac:(lia)) ltac:(lia)) as [c1 ->].
    destruct (proj2 (str_index_is_Some s 2 ltac:(lia)) ltac:(lia)) as [c2 ->].
    destruct (proj2 (str_index_is_Some s 3 ltac:(lia)) ltac:(lia)) as [c3 ->].
    cbn. eauto.
Qed.

(** *** The random player *)

Lemma random_loop_returned valids a draws r :
  random_loop valids a draws = Returned r →
  mask_at valids r = Some 1 ∧ r ∈ a :: draws.
Proof.
  revert a. induction draws as [|d draws IH]; intros a; cbn.
  - destruct (mask_at valids a) as [v|] eqn:E; [|done].
    case_decide as Hv; [done|]. intros [= <-].
    split; [|by left]. rewrite E. f_equal. by destruct (decide (v = 1)).
  - destruct (mask_at valids a) as [v|] eqn:E; [|done].
    case_decide as Hv.
    + intros Hr. destruct (IH _ Hr) as [? ?]. split; [done|by right].
    + intros [= <-].
      split; [|by left]. rewrite E. f_equal. by destruct (decide (v = 1)).
Qed.

(** X15.  Whatever the generator yields, an action [RandomPlayer.play]
    returns is one of the draws and decodes to a legal move of player +1. *)
Theorem X15_random_play_legal n b draws a :
  size_ok n → shape_ok n b → cells_ok b →
  Forall (λ d, 0 ≤ d < getActionSize n) draws →
  random_play n b draws = Returned a →
  a ∈ draws ∧ 0 ≤ a < getActionSize n ∧ legal_on b 1 (decode n 1 a).
Proof.
  intros Hn Hb Hcells Hdraws Hplay. unfold random_play in Hplay.
  destruct draws as [|d draws]; [done|].
  destruct (getValidMoves n b 1) as [valids|] eqn:Hmask; [|done].
  destruct (random_loop_returned _ _ _ _ Hplay) as [Hbit Hin].
  split; [done|].
  rewrite Forall_forall in Hdraws. pose proof (Hdraws _ Hin) as Ha.
  split; [done|].
  by apply (mask_bit_set n b a valids).
Qed.

Lemma X15_random_play_legal_witness :
  let b := [[-1; -1; -1; -1]; [0; 0; 0; 0]; [0; 1; 0; 0]; [1; 0; 1; 1]] in
  4 ∈ [0; 29; 4; 8] ∧ 0 ≤ 4 < getActionSize 4 ∧ legal_on b 1 (decode 4 1 4).
Proof.
  intros b. apply (X15_random_play_legal 4 b [0; 29; 4; 8] 4).
  - by_compute.
  - by_compute.
  - by_compute.
  - by_compute.
  - vm_compute. reflexivity.
Defined.

(** X16.  [RandomPlayer.play] keeps drawing while the draws are illegal
    actions and returns the first legal one. *)
Theorem X16_random_play_first n b pre a post :
  size_ok n → shape_ok n b → cells_ok b →
  Forall (λ d, 0 ≤ d < getActionSize n ∧ ¬ legal_on b 1 (decode n 1 d)) pre →
  0 ≤ a < getActionSize n → legal_on b 1 (decode n 1 a) →
  random_play n b (pre ++ a :: post) = Returned a.
Proof.
  intros Hn Hb Hcells Hpre Ha Hlegal.
  destruct (valid_mask_decode n b 1 Hn Hb) as (valids & Hmask & _ & _).
  assert (Hloop : ∀ pre, Forall (λ d, 0 ≤ d < getActionSize n ∧
                             ¬ legal_on b 1 (decode n 1 d)) pre →
            ∀ d rest, d :: rest = pre ++ a :: post →
            random_loop valids d rest = Returned a).
  { clear Hpre pre. intros pre Hpre.
    induction Hpre as [|x pre [Hx Hnl] _ IH]; intros d rest Heq.
    - cbn in Heq. injection Heq as -> ->.
      apply (mask_bit_legal n b a valids Hn Hb Hcells Ha Hmask) in Hlegal.
      destruct post; cbn; rewrite Hlegal; by rewrite decide_False by (intros ?; done).
    - cbn in Heq. injection Heq as -> ->.
      apply (mask_bit_illegal n b x valids Hn Hb Hcells Hx Hmask) in Hnl.
      destruct pre as [|y pre]; cbn; rewrite Hnl; rewrite decide_True by done.
      + by apply (IH a post).
      + by apply (IH y (pre ++ a :: post)). }
  unfold random_play.
  destruct (pre ++ a :: post) as [|d rest] eqn:E.
  - by destruct pre.
  - rewrite Hmask. by apply (Hloop pre).
Qed.

Lemma X16_random_play_first_witness :
  let b := [[-1; -1; -1; -1]; [0; 0; 0; 0]; [0; 1; 0; 0]; [1; 0; 1; 1]] in
  random_play 4 b ([0; 29] ++ 4 :: [8]) = Returned 4.
Proof.
  intros b. apply (X16_random_play_first 4 b [0; 29] 4 [8]).
  - by_compute.
  - by_compute.
  - by_compute.
  - by_compute.
  - by_compute.
  - by_compute.
Defined.

(** X17.  On a position without a legal move for player +1,
    [RandomPlayer.play] has not returned after any number of draws. *)
Theorem X17_random_play_stalemate n b draws :
  size_ok n → shape_ok n b → cells_ok b →
  (∀ a, 0 ≤ a < getActionSize n → ¬ legal_on b 1 (decode n 1 a)) →
  Forall (λ d, 0 ≤ d < getActionSize n) draws →
  random_play n b draws = Pending.
Proof.
  intros Hn Hb Hcells Hnone Hdraws.
  destruct (valid_mask_decode n b 1 Hn Hb) as (valids & Hmask & _ & _).
  unfold random_play. destruct Hdraws as [|d draws Hd Hdraws]; [done|].
  rewrite Hmask. revert d Hd.
  induction Hdraws as [|d' draws Hd' _ IH]; intros d Hd; cbn.
  - pose proof (Hnone d Hd) as Hnl.
    apply (mask_bit_illegal n b d valids Hn Hb Hcells Hd Hmask) in Hnl.
    rewrite Hnl. by rewrite decide_True.
  - pose proof (Hnone d Hd) as Hnl.
    apply (mask_bit_illegal n b d valids Hn Hb Hcells Hd Hmask) in Hnl.
    rewrite Hnl. rewrite decide_True by done. by apply IH.
Qed.

Lemma X17_random_play_stalemate_witness :
  random_play 4 [[-1; -1; -1; -1]; [0; 0; 0; 0]; [0; 0; 0; 0]; [0; 0; 0; 0]]
    [3; 0; 29]
  = Pending.
Proof.
  apply (X17_random_play_stalemate 4).
  - by_compute.
  - by_compute.
  - by_compute.
  - apply (forall_actions (λ a, ¬ legal_on [[-1; -1; -1; -1]; [0; 0; 0; 0]; [0; 0; 0; 0]; [0; 0; 0; 0]]
                                    1 (decode 4 1 a))).
    vm_compute. reflexivity.
  - by_compute.
Defined.

(** *** The human player: matching a typed move to an action *)

Lemma size_8 : size_ok 8.
Proof. split; [lia|reflexivity]. Qed.

Lemma scan_step (s : gmap nat board) l b p0 p1 p2 p3 a rest :
  shape_ok 8 b → s !! l = Some b → 0 ≤ a < getActionSize 8 →
  in_board p0 p1 → in_board p2 p3 →
  ∃ b', next_board 8 b 1 a = Some b' ∧
    let s1 := <[fresh (dom s) := b']> s in
    s1 !! l = Some b ∧
    scan_actions l (p0, p1, p2, p3) (a :: rest) s =
      if hit b (p0, p1, p2, p3) a then Some (Some (a, fresh (dom s)), s1)
      else scan_actions l (p0, p1, p2, p3) rest s1.
Proof.
  intros Hb Hl Ha [H0 H1] [H2 H3].
  destruct (next_board_spec 8 b 1 a size_8 Hb ltac:(lia) Ha)
    as (b' & Hnext & Hb' & _).
  exists b'. split; [done|]. cbv zeta.
  pose proof (fresh_unallocated s) as Hfresh.
  assert (Hl1 : <[fresh (dom s) := b']> s !! l = Some b).
  { rewrite lookup_insert_ne; [done|congruence]. }
  split; [done|].
  cbn [scan_actions]. unfold bind at 1.
  rewrite (getNextState_run 8 s l b 1 a Hl), Hnext. cbn [mbind option_bind].
  destruct (getitem_is_Some 8 b' p0 p1 Hb' H0 H1) as [x1 Hx1].
  destruct (getitem_is_Some 8 b p0 p1 Hb H0 H1) as [y1 Hy1].
  destruct (getitem_is_Some 8 b' p2 p3 Hb' H2 H3) as [x2 Hx2].
  destruct (getitem_is_Some 8 b p2 p3 Hb H2 H3) as [y2 Hy2].
  unfold hit. rewrite Hnext, Hx1, Hy1, Hx2, Hy2.
  unfold bind, store_getitem, ret.
  rewrite lookup_insert_eq. cbn [mbind option_bind]. rewrite Hx1.
  cbn [mbind option_bind]. rewrite Hl1. cbn [mbind option_bind]. rewrite Hy1.
  cbn [mbind option_bind].
  destruct (decide (x1 ≠ y1)) as [N1|E1].
  - rewrite (bool_decide_eq_true_2 (Some x1 ≠ Some y1)) by congruence.
    rewrite lookup_insert_eq. cbn [mbind option_bind]. rewrite Hx2.
    cbn [mbind option_bind]. rewrite Hl1. cbn [mbind option_bind]. rewrite Hy2.
    cbn [mbind option_bind].
    destruct (decide (x2 ≠ y2)) as [N2|E2].
    + by rewrite (bool_decide_eq_true_2 (Some x2 ≠ Some y2)) by congruence.
    + rewrite (bool_decide_eq_false_2 (Some x2 ≠ Some y2)); [done|].
      intros N. apply N. f_equal. destruct (decide (x2 = y2)); [done|tauto].
  - rewrite (bool_decide_eq_false_2 (Some x1 ≠ Some y1)); [done|].
    intros N. apply N. f_equal. destruct (decide (x1 = y1)); [done|tauto].
Qed.

(** A cell an action changes is its source or its destination. *)
Lemma changed_cell b b' a r c :
  shape_ok 8 b → 0 ≤ a < getActionSize 8 → in_board r c →
  next_board 8 b 1 a = Some b' →
  getitem b' r c ≠ getitem b r c →
  let m := decode 8 1 a in
  (r = src_row m ∧ c = src_col m) ∨ (r = dest_row m ∧ c = dest_col m).
Proof.
  intros Hb Ha [Hr Hc] Hnext Hdiff m.
  destruct (next_board_spec 8 b 1 a size_8 Hb ltac:(lia) Ha)
    as (b1 & Hnext' & Hb' & Hcell).
  rewrite Hnext in Hnext'. injection Hnext' as <-. fold m in Hcell.
  destruct (decode_range 8 size_8 1 a Ha) as (Hsr & Hsc & Hdr & Hdc).
  fold m in Hsr, Hsc, Hdr, Hdc.
  rewrite !(getitem_cell 8) in Hdiff by done. rewrite Hcell in Hdiff.
  repeat case_decide; try done; [right|left]; lia.
Qed.

Lemma hit_squares b p0 p1 p2 p3 a :
  shape_ok 8 b → 0 ≤ a < getActionSize 8 →
  in_board p0 p1 → in_board p2 p3 →
  hit b (p0, p1, p2, p3) a = true →
  let m := decode 8 1 a in
  ((p0 = src_row m ∧ p1 = src_col m) ∨ (p0 = dest_row m ∧ p1 = dest_col m)) ∧
  ((p2 = src_row m ∧ p3 = src_col m) ∨ (p2 = dest_row m ∧ p3 = dest_col m)).
Proof.
  intros Hb Ha H01 H23 Hhit m. unfold hit in Hhit.
  destruct (next_board 8 b 1 a) as [b'|] eqn:Hnext; [|done].
  apply andb_true_iff in Hhit as [D1 D2].
  apply bool_decide_eq_true in D1. apply bool_decide_eq_true in D2.
  split; by eapply changed_cell.
Qed.




(** Without a hit the loop runs out. *)
Lemma scan_none b p0 p1 p2 p3 actions :
  shape_ok 8 b → in_board p0 p1 → in_board p2 p3 →
  Forall (λ x, 0 ≤ x < getActionSize 8 ∧ hit b (p0, p1, p2, p3) x = false)
    actions →
  ∀ (s : gmap nat board) l, s !! l = Some b →
  ∃ s', scan_actions l (p0, p1, p2, p3) actions s = Some (None, s') ∧
        s' !! l = Some b.
Proof.
  intros Hb H01 H23 Hall.
  induction Hall as [|x actions [Hx Hmiss] _ IH]; intros s l Hl.
  - exists s. done.
  - destruct (scan_step s l b p0 p1 p2 p3 x actions Hb Hl Hx H01 H23)
      as (b1 & Hnext & Hl1 & Hscan).
    rewrite Hscan, Hmiss. by apply IH.
Qed.


Lemma scan_sound b p0 p1 p2 p3 actions :
  shape_ok 8 b → in_board p0 p1 → in_board p2 p3 →
  Forall (λ x, 0 ≤ x < getActionSize 8) actions →
  ∀ (s : gmap nat board) l a l' s', s !! l = Some b →
  scan_actions l (p0, p1, p2, p3) actions s = Some (Some (a, l'), s') →
  a ∈ actions ∧ hit b (p0, p1, p2, p3) a = true.
Proof.
  intros Hb H01 H23 Hall.
  induction Hall as [|x actions Hx _ IH]; intros s l a l' s' Hl Hrun.
  - done.
  - destruct (scan_step s l b p0 p1 p2 p3 x actions Hb Hl Hx H01 H23)
      as (b1 & Hnext & Hl1 & Hscan).
    rewrite Hscan in Hrun.
    destruct (hit b (p0, p1, p2, p3) x) eqn:Hhit.
    + injection Hrun as <- <- <-. split; [by left|done].
    + destruct (IH _ _ _ _ _ Hl1 Hrun) as [Hin Ht]. split; [by right|done].
Qed.

Lemma actions_in_range k : Forall (λ x, 0 ≤ x < k) (seqZ 0 k).
Proof. apply Forall_seqZ. intros. lia. Qed.



(** X19.  Whatever action the loop of [HumanBreakthroughPlayer.play]
    returns, each of the two typed squares is the source or the
    destination of its decoded move; which of the two is which is not
    checked, and neither is legality. *)
Theorem X19_human_find_sound (s : gmap nat board) l b p0 p1 p2 p3 a l' s' :
  shape_ok 8 b → s !! l = Some b → in_board p0 p1 → in_board p2 p3 →
  human_find l (p0, p1, p2, p3) s = Some (Some (a, l'), s') →
  let m := decode 8 1 a in
  0 ≤ a < getActionSize 8 ∧
  ((p0 = src_row m ∧ p1 = src_col m) ∨ (p0 = dest_row m ∧ p1 = dest_col m)) ∧
  ((p2 = src_row m ∧ p3 = src_col m) ∨ (p2 = dest_row m ∧ p3 = dest_col m)).
Proof.
  intros Hb Hl H01 H23 Hrun m. unfold human_find in Hrun.
  destruct (scan_sound b p0 p1 p2 p3 _ Hb H01 H23
              (actions_in_range (getActionSize 8)) s l a l' s' Hl Hrun)
    as [Hin Hhit].
  apply elem_of_seqZ in Hin.
  assert (Ha : 0 ≤ a < getActionSize 8) by lia.
  split; [done|]. by apply (hit_squares b).
Qed.

Lemma X19_human_find_sound_witness :
  let m := decode 8 1 0 in
  0 ≤ 0 < getActionSize 8 ∧
  ((0 = src_row m ∧ 1 = src_col m) ∨ (0 = dest_row m ∧ 1 = dest_col m)) ∧
  ((1 = src_row m ∧ 0 = src_col m) ∨ (1 = dest_row m ∧ 0 = dest_col m)).
Proof.
  apply (X19_human_find_sound
           {[ 0%nat :=
              [[0; 0; 0; 0; 0; 0; 0; 0]; [1; 0; 0; 0; 0; 0; 0; 0];
     [0; 0; 0; 0; 0; 0; 0; 0]; [0; 0; 0; 0; 0; 0; 0; 0];
     [0; 0; 0; 0; 0; 0; 0; 0]; [0; 0; 0; 0; 0; 0; 0; 0];
     [0; 0; 0; 0; 0; 0; 0; 0]; [0; 0; 0; 0; 0; 0; 0; 0]] ]}
           0%nat
           [[0; 0; 0; 0; 0; 0; 0; 0]; [1; 0; 0; 0; 0; 0; 0; 0];
     [0; 0; 0; 0; 0; 0; 0; 0]; [0; 0; 0; 0; 0; 0; 0; 0];
     [0; 0; 0; 0; 0; 0; 0; 0]; [0; 0; 0; 0; 0; 0; 0; 0];
     [0; 0; 0; 0; 0; 0; 0; 0]; [0; 0; 0; 0; 0; 0; 0; 0]]
           0 1 1 0 0 1%nat
           (<[ 1%nat :=
              [[0; 1; 0; 0; 0; 0; 0; 0]; [0; 0; 0; 0; 0; 0; 0; 0];
     [0; 0; 0; 0; 0; 0; 0; 0]; [0; 0; 0; 0; 0; 0; 0; 0];
     [0; 0; 0; 0; 0; 0; 0; 0]; [0; 0; 0; 0; 0; 0; 0; 0];
     [0; 0; 0; 0; 0; 0; 0; 0]; [0; 0; 0; 0; 0; 0; 0; 0]] ]>
            {[ 0%nat :=
              [[0; 0; 0; 0; 0; 0; 0; 0]; [1; 0; 0; 0; 0; 0; 0; 0];
     [0; 0; 0; 0; 0; 0; 0; 0]; [0; 0; 0; 0; 0; 0; 0; 0];
     [0; 0; 0; 0; 0; 0; 0; 0]; [0; 0; 0; 0; 0; 0; 0; 0];
     [0; 0; 0; 0; 0; 0; 0; 0]; [0; 0; 0; 0; 0; 0; 0; 0]] ]})).
  - by_compute.
  - reflexivity.
  - by_compute.
  - by_compute.
  - vm_compute. reflexivity.
Defined.

(** X20.  Typed squares two or more rows apart match no action: the loop
    runs through all actions, returns nothing, and leaves the board as
    it was. *)
Theorem X20_human_find_none (s : gmap nat board) l b p0 p1 p2 p3 :
  shape_ok 8 b → s !! l = Some b → in_board p0 p1 → in_board p2 p3 →
  2 ≤ p0 - p2 ∨ 2 ≤ p2 - p0 →
  ∃ s', human_find l (p0, p1, p2, p3) s = Some (None, s') ∧ s' !! l = Some b.
Proof.
  intros Hb Hl H01 H23 Hfar. unfold human_find.
  assert (Hall : Forall (λ x, 0 ≤ x < getActionSize 8 ∧
                               hit b (p0, p1, p2, p3) x = false)
                   (seqZ 0 (getActionSize 8))).
  { apply Forall_seqZ. intros x Hx. split; [lia|].
    destruct (hit b (p0, p1, p2, p3) x) eqn:Hhit; [|done].
    assert (Hxa : 0 ≤ x < getActionSize 8) by lia.
    destruct (hit_squares b p0 p1 p2 p3 x Hb Hxa H01 H23 Hhit) as [H1 H2].
    destruct (step_facts 8 1 x size_8 (or_introl eq_refl) Hxa) as (Hup & _ & _).
    specialize (Hup eq_refl). lia. }
  exact (scan_none b p0 p1 p2 p3 _ Hb H01 H23 Hall s l Hl).
Qed.

Lemma X20_human_find_none_witness :
  let b : board :=
    [[-1; -1; -1; -1; -1; -1; -1; -1]; [-1; -1; -1; -1; -1; -1; -1; -1];
     [0; 0; 0; 0; 0; 0; 0; 0]; [0; 0; 0; 0; 0; 0; 0; 0];
     [0; 0; 0; 0; 0; 0; 0; 0]; [0; 0; 0; 0; 0; 0; 0; 0];
     [1; 1; 1; 1; 1; 1; 1; 1]; [1; 1; 1; 1; 1; 1; 1; 1]] in
  let s : gmap nat board := {[ 0%nat := b ]} in
  ∃ s', human_find 0%nat (6, 0, 3, 0) s = Some (None, s') ∧
        s' !! 0%nat = Some b.
Proof.
  intros b s. apply (X20_human_find_none s 0%nat b 6 0 3 0).
  - by_compute.
  - reflexivity.
  - by_compute.
  - by_compute.
  - lia.
Defined.

(** ** The three kinds of move and their regions *)

Lemma decode_kind n a :
  size_ok n → 0 ≤ a < getActionSize n →
  let m := decode n 1 a in
  let Q := (n - 1) * (n - 1) in
  let F := n * (n - 1) in
  (a < Q ∧ dest_col m = src_col m + 1) ∨
  (Q ≤ a < Q + F ∧ dest_col m = src_col m) ∨
  (Q + F ≤ a ∧ dest_col m = src_col m - 1).
Proof.
  intros Hn Ha. cbv zeta.
  pose proof (half_double n Hn) as Hd. pose proof (half_pos n Hn) as Hh.
  assert (HF : n * (n - 1) = (n - 1) * (n `div` 2) + (n - 1) * (n `div` 2)) by nia.
  rewrite HF.
  destruct (action_regions n Hn a Ha)
    as [(i & j & Hi & Hj & ->)|[(i & j & Hi & Hj & ->)|
        [(i & j & Hi & Hj & ->)|(i & j & Hi & Hj & ->)]]].
  - rewrite (decode_region1 n Hn) by done. cbn. left. split; [nia|lia].
  - rewrite (decode_region2 n Hn) by done. cbn. right; left. split; [nia|lia].
  - rewrite (decode_region3 n Hn) by done. cbn. right; left. split; [nia|lia].
  - rewrite (decode_region4 n Hn) by done. cbn. right; right. split; [nia|lia].
Qed.

(** X21.  The action space splits by kind of move as the docstring of
    [getActionSize] counts it: the first [(n - 1)^2] actions are the steps
    to the right, the next [n (n - 1)] the straight steps, and the last
    [(n - 1)^2] the steps to the left. *)
Theorem X21_action_regions_by_kind n p a :
  size_ok n → 0 ≤ a < getActionSize n →
  let m := decode n p a in
  let Q := (n - 1) * (n - 1) in
  let F := n * (n - 1) in
  getActionSize n = Q + F + Q ∧
  (dest_col m = src_col m + 1 ↔ a < Q) ∧
  (dest_col m = src_col m ↔ Q ≤ a < Q + F) ∧
  (dest_col m = src_col m - 1 ↔ Q + F ≤ a).
Proof.
  intros Hn Ha. cbv zeta.
  assert (Hcols : dest_col (decode n p a) = dest_col (decode n 1 a) ∧
                  src_col (decode n p a) = src_col (decode n 1 a)).
  { rewrite (decode_player n p a). case_decide; [|done].
    by destruct (decode n 1 a). }
  destruct Hcols as [-> ->].
  split; [unfold getActionSize; ring|].
  assert (0 ≤ n * (n - 1)) by (destruct Hn; nia).
  destruct (decode_kind n a Hn Ha) as [[? ?]|[[? ?]|[? ?]]]; cbv zeta in *; lia.
Qed.

Lemma X21_action_regions_by_kind_witness :
  let m := decode 4 (-1) 12 in
  let Q := (4 - 1) * (4 - 1) in
  let F := 4 * (4 - 1) in
  getActionSize 4 = Q + F + Q ∧
  (dest_col m = src_col m + 1 ↔ 12 < Q) ∧
  (dest_col m = src_col m ↔ Q ≤ 12 < Q + F) ∧
  (dest_col m = src_col m - 1 ↔ Q + F ≤ 12).
Proof.
  apply (X21_action_regions_by_kind 4 (-1) 12).
  - by_compute.
  - by_compute.
Defined.

(** ** The initial position from both sides *)

(** X22.  The initial position is its own canonical form for player -1:
    both sides see the same board at the start. *)
Theorem X22_init_canonical n b :
  size_ok n → getInitBoard n = Some b → getCanonicalForm n b (-1) = b.
Proof.
  intros Hn Hinit.
  destruct (init_board_cells n Hn) as (b' & Hb' & Hshape & Hcells).
  rewrite Hinit in Hb'. injection Hb' as <-.
  apply (is_mat_ext (Z.to_nat n) (Z.to_nat n)); [by apply canonical_shape|done|].
  intros i j Hi Hj.
  rewrite (canonical_cell n) by done. rewrite decide_False by lia.
  destruct Hn as [H4 Hev].
  rewrite <- (Nat2Z.id i), <- (Nat2Z.id j).
  replace (Z.to_nat n - 1 - Z.to_nat (Z.of_nat i))%nat
    with (Z.to_nat (n - 1 - Z.of_nat i)) by lia.
  rewrite <- !(getitem_cell n) by (done || lia).
  rewrite !Hcells by lia. cbn.
  repeat case_decide; try lia; reflexivity.
Qed.

Lemma X22_init_canonical_witness :
  getCanonicalForm 4
    [[-1; -1; -1; -1]; [-1; -1; -1; -1]; [1; 1; 1; 1]; [1; 1; 1; 1]] (-1)
  = [[-1; -1; -1; -1]; [-1; -1; -1; -1]; [1; 1; 1; 1]; [1; 1; 1; 1]].
Proof.
  apply (X22_init_canonical 4).
  - by_compute.
  - reflexivity.
Defined.

(** ** Counting pieces *)

Lemma count_in_cons v x l : count_in v (x :: l) = (one_if x v + count_in v l)%nat.
Proof.
  unfold count_in, one_if. rewrite filter_cons. by case_decide.
Qed.

Lemma count_in_app v l1 l2 :
  count_in v (l1 ++ l2) = (count_in v l1 + count_in v l2)%nat.
Proof. unfold count_in. by rewrite filter_app, length_app. Qed.

Lemma count_in_insert v l j x y :
  l !! j = Some x →
  (count_in v (<[j := y]> l) + one_if x v = count_in v l + one_if y v)%nat.
Proof.
  revert j. induction l as [|z l IH]; intros [|j] Hj; try done.
  - cbn in Hj. injection Hj as ->. simpl insert.
    rewrite !count_in_cons. lia.
  - cbn in Hj. simpl insert. rewrite !count_in_cons.
    specialize (IH j Hj). lia.
Qed.

Lemma count_pieces_cons v row (m : board) :
  count_pieces v (row :: m) = (count_in v row + count_pieces v m)%nat.
Proof. unfold count_pieces, flatten. cbn. apply count_in_app. Qed.

Lemma count_pieces_insert v (m : board) i j row x y :
  m !! i = Some row → row !! j = Some x →
  (count_pieces v (<[i := <[j := y]> row]> m) + one_if x v
   = count_pieces v m + one_if y v)%nat.
Proof.
  intros Hi Hj. revert i Hi. induction m as [|r m IH]; intros [|i] Hi; try done.
  - cbn in Hi. injection Hi as ->. simpl insert.
    rewrite !count_pieces_cons.
    pose proof (count_in_insert v row j x y Hj). lia.
  - cbn in Hi. simpl insert. rewrite !count_pieces_cons.
    specialize (IH i Hi). lia.
Qed.

Lemma setitem_count n b r c v x :
  shape_ok n b → 0 ≤ r < n → 0 ≤ c < n → -128 ≤ v ≤ 127 →
  getitem b r c = Some x →
  ∃ b', setitem b r c v = Some b' ∧
    ∀ u, (count_pieces u b' + one_if x u = count_pieces u b + one_if v u)%nat.
Proof.
  intros Hb Hr Hc Hv Hx. unfold setitem. unfold getitem, getrow in Hx.
  rewrite np_index_in_range in Hx |- * by (destruct Hb; lia).
  cbn [mbind option_bind] in Hx |- *.
  destruct (b !! Z.to_nat r) as [row|] eqn:E; [|done].
  cbn [mbind option_bind] in Hx |- *.
  destruct (is_mat_row _ _ _ _ _ Hb E) as [Hlen _].
  rewrite np_index_in_range in Hx |- * by lia.
  cbn [mbind option_bind] in Hx |- *.
  unfold to_int8. rewrite decide_True by done. cbn [mbind option_bind].
  eexists. split; [done|]. intros u. by apply count_pieces_insert.
Qed.

(** X23.  A legal move keeps the number of the mover's pieces, and the
    number of opposing pieces drops by one when the destination held one
    and stays the same otherwise. *)
Theorem X23_legal_move_counts n (s : gmap nat board) l b p a mask l' q s' b' :
  size_ok n → shape_ok n b → cells_ok b → player_ok p →
  0 ≤ a < getActionSize n → s !! l = Some b →
  getValidMoves n b p = Some mask → mask_at mask a = Some 1 →
  getNextState n l p a s = Some ((l', q), s') → s' !! l' = Some b' →
  let m := decode n p a in
  count_pieces p b' = count_pieces p b ∧
  (count_pieces (- p) b'
   + (if decide (getitem b (dest_row m) (dest_col m) = Some (- p))
      then 1 else 0)
   = count_pieces (- p) b)%nat.
Proof.
  intros Hn Hb Hcells Hp Ha Hl Hmask Hbit Hrun Hres m.
  apply (mask_bit_iff n b p a mask Hn Hb Hcells Hp Ha Hmask) in Hbit.
  destruct Hbit as (Hsrc & y & Hdest & Hne & _). fold m in Hsrc, Hdest.
  destruct (decode_range n Hn p a Ha) as (Hsr & Hsc & Hdr & Hdc).
  fold m in Hsr, Hsc, Hdr, Hdc.
  destruct (step_facts n p a Hn Hp Ha) as (Hup & Hdown & _).
  fold m in Hup, Hdown.
  rewrite (getNextState_run n s l b p a Hl) in Hrun.
  unfold next_board in Hrun. fold m in Hrun.
  destruct (setitem_count n b _ _ 0 p Hb Hsr Hsc ltac:(lia) Hsrc)
    as (b1 & Hset1 & Hc1).
  destruct (setitem_spec n b _ _ 0 Hb Hsr Hsc ltac:(lia))
    as (b1' & Hset1' & Hb1 & Hcell1).
  rewrite Hset1 in Hset1'. injection Hset1' as <-.
  assert (Hdest1 : getitem b1 (dest_row m) (dest_col m) = Some y).
  { rewrite (getitem_cell n) by done. rewrite Hcell1.
    rewrite decide_False by (destruct Hp; lia).
    by rewrite <- (getitem_cell n). }
  destruct (setitem_count n b1 _ _ p y Hb1 Hdr Hdc (player_int8 p Hp) Hdest1)
    as (b2 & Hset2 & Hc2).
  rewrite Hset1 in Hrun. cbn [mbind option_bind] in Hrun.
  rewrite Hset2 in Hrun. cbn [mbind option_bind] in Hrun.
  injection Hrun as <- <- <-. rewrite lookup_insert_eq in Hres.
  injection Hres as <-. rewrite Hdest.
  pose proof (Hc1 p) as A1. pose proof (Hc2 p) as A2.
  pose proof (Hc1 (- p)) as B1. pose proof (Hc2 (- p)) as B2.
  unfold one_if in *.
  rewrite (decide_True (P := p = p)) in A1, A2 by done.
  rewrite (decide_False (P := 0 = p)) in A1 by (destruct Hp; lia).
  rewrite (decide_False (P := y = p)) in A2 by done.
  rewrite (decide_False (P := p = - p)) in B1, B2 by (destruct Hp; lia).
  rewrite (decide_False (P := 0 = - p)) in B1 by (destruct Hp; lia).
  split; [lia|].
  destruct (decide (y = - p)) as [->|Hy].
  - rewrite decide_True by done. lia.
  - rewrite decide_False by congruence. lia.
Qed.

Lemma X23_legal_move_counts_witness :
  let b := [[-1; -1; -1; -1]; [0; 0; -1; 0]; [0; 1; 0; 0]; [1; 0; 1; 1]] in
  let b' := [[-1; -1; -1; -1]; [0; 0; 1; 0]; [0; 0; 0; 0]; [1; 0; 1; 1]] in
  let m := decode 4 1 4 in
  count_pieces 1 b' = count_pieces 1 b ∧
  (count_pieces (- 1)%Z b'
   + (if decide (getitem b (dest_row m) (dest_col m) = Some (- 1)%Z)
      then 1 else 0)
   = count_pieces (- 1)%Z b)%nat.
Proof.
  intros b b'.
  apply (X23_legal_move_counts 4 {[ 0%nat := b ]} 0%nat b 1 4
           [0; 0; 0; 0; 1; 0; 0; 0; 1; 0; 0; 0; 1; 1; 0;
            1; 1; 0; 0; 0; 0; 0; 0; 1; 1; 0; 0; 0; 0; 0]
           1%nat (-1) (<[ 1%nat := b' ]> {[ 0%nat := b ]}) b').
  - by_compute.
  - by_compute.
  - by_compute.
  - by left.
  - by_compute.
  - reflexivity.
  - vm_compute. reflexivity.
  - vm_compute. reflexivity.
  - vm_compute. reflexivity.
  - reflexivity.
Defined.

(** ** A typed row outside the board *)

(** X24.  A typed row outside [-8, 8) makes the loop of
    [HumanBreakthroughPlayer.play] raise at its first comparison instead
    of prompting again (rank 0, for one, is read as row 8). *)
Theorem X24_human_find_raises (s : gmap nat board) l b p0 p1 p2 p3 :
  shape_ok 8 b → s !! l = Some b → ¬ (-8 ≤ p0 < 8) →
  human_find l (p0, p1, p2, p3) s = None.
Proof.
  intros Hb Hl Hout. unfold human_find.
  change (seqZ 0 (getActionSize 8)) with (0 :: seqZ 1 153).
  cbn [scan_actions]. unfold bind at 1.
  assert (Ha : 0 ≤ 0 < getActionSize 8) by (vm_compute; split; congruence).
  destruct (next_board_spec 8 b 1 0 size_8 Hb ltac:(lia) Ha)
    as (b' & Hnext & Hb' & _).
  rewrite (getNextState_run 8 s l b 1 0 Hl), Hnext. cbn [mbind option_bind].
  unfold bind at 1. unfold store_getitem at 1.
  rewrite lookup_insert_eq. cbn [mbind option_bind].
  unfold getitem, getrow, np_index.
  destruct Hb' as [Hlen _]. rewrite Hlen.
  rewrite decide_False by (cbn; lia). rewrite decide_False by (cbn; lia).
  done.
Qed.

Lemma X24_human_find_raises_witness :
  human_find 0%nat (8, 0, 7, 0)
    ({[ 0%nat :=
       [[-1; -1; -1; -1; -1; -1; -1; -1]; [-1; -1; -1; -1; -1; -1; -1; -1];
     [0; 0; 0; 0; 0; 0; 0; 0]; [0; 0; 0; 0; 0; 0; 0; 0];
     [0; 0; 0; 0; 0; 0; 0; 0]; [0; 0; 0; 0; 0; 0; 0; 0];
     [1; 1; 1; 1; 1; 1; 1; 1]; [1; 1; 1; 1; 1; 1; 1; 1]] ]} : gmap nat board)
  = None.
Proof.
  apply (X24_human_find_raises _ 0%nat
    [[-1; -1; -1; -1; -1; -1; -1; -1]; [-1; -1; -1; -1; -1; -1; -1; -1];
     [0; 0; 0; 0; 0; 0; 0; 0]; [0; 0; 0; 0; 0; 0; 0; 0];
     [0; 0; 0; 0; 0; 0; 0; 0]; [0; 0; 0; 0; 0; 0; 0; 0];
     [1; 1; 1; 1; 1; 1; 1; 1]; [1; 1; 1; 1; 1; 1; 1; 1]]).
  - by_compute.
  - reflexivity.
  - lia.
Defined.
